(** * Battle simulator of the Pokemon MCP server: a shallow embedding

    The development follows [battle_simulator.py]: the stat and damage
    helpers, the move selector, the status engine, the type chart builder
    and the turn loop of [simulate_battle].

    Conventions of the embedding.
    - Python [int] is [Z]. In the turn loop a Python [float] is an exact
      rational [Q] and [int(x)] is truncation toward zero, [trunc]: the
      loop uses of a damage only that it is at least 1, and of the HP
      update only [max(0, .)]. [calc_damage] is also given as Python
      evaluates it, on unbounded ints and IEEE 754 binary64 floats with
      their exceptions, in [Binary64].
    - [x or d] on an optional integer is [py_or]: [None] and [0] are both
      falsy.
    - A raised exception is [None] in an [option] result.
    - The global [random] module is a generator state [Rng] threaded through
      every function that draws from it.
    - Upstream HTTP data is a [World]: what each loader returns for each
      name, [None] when the fetch raises.
    - The log is a list of [Event]s, one constructor per f-string of the
      source, carrying the interpolated values. *)

From Stdlib Require Import ZArith QArith Qround String Ascii List Lia Bool.
From Stdlib Require Floats.SpecFloat.
From stdpp Require Import gmap strings list fin_maps.
Import ListNotations.

Local Open Scope Z_scope.

(** ** Python idioms *)

(** [o or d] for an optional integer. *)
Definition py_or (o : option Z) (d : Z) : Z :=
  match o with
  | Some v => if v =? 0 then d else v
  | None => d
  end.

(** Truthiness of an optional integer. *)
Definition truthy (o : option Z) : bool :=
  match o with
  | Some v => negb (v =? 0)
  | None => false
  end.

(** [int(x)] for a float [x]: truncation toward zero. *)
Definition trunc (x : Q) : Z := Z.quot (Qnum x) (Zpos (Qden x)).

(** [max(a, b)] on floats: Python returns [b] only when [b > a]. *)
Definition Qmax (a b : Q) : Q := if Qlt_le_dec a b then b else a.

(** ** Stat and damage helpers *)

Definition compute_hp_from_base (base_hp level : Z) : Z :=
  Z.max 1 (trunc (inject_Z ((2 * base_hp + 31) * level) / inject_Z 100
                  + inject_Z level + inject_Z 10)).

Definition stat_at_level (base level : Z) : Z :=
  Z.max 1 (trunc (inject_Z ((2 * base + 31) * level) / inject_Z 100
                  + inject_Z 5)).

(** ** Strings: [str.lower], [in], [" ".join] (ASCII) *)

Definition lower_ascii (c : ascii) : ascii :=
  let n := nat_of_ascii c in
  if ((65 <=? n) && (n <=? 90))%nat then ascii_of_nat (n + 32) else c.

Fixpoint lower (s : string) : string :=
  match s with
  | EmptyString => EmptyString
  | String c r => String (lower_ascii c) (lower r)
  end.

(** [needle in hay]. *)
Fixpoint contains (needle hay : string) : bool :=
  String.prefix needle hay ||
  match hay with
  | EmptyString => false
  | String _ r => contains needle r
  end.

Fixpoint join (sep : string) (l : list string) : string :=
  match l with
  | [] => EmptyString
  | [x] => x
  | x :: r => String.append x (String.append sep (join sep r))
  end.

(** ** The pseudo-random stream

    Python's [random] module is a library, not code of the repository. Its
    state is modelled as a tape of raw words and a cursor; every draw reads
    one cell. [random()] is a 53-bit fraction in [[0,1)], [randint(a,b)]
    an integer of [[a,b]], [uniform(a,b)] is [a + (b-a) * random()] as in
    the library. Every sequence of draws of a run is the image of some
    tape, so a statement for all [Rng] is a statement for all streams. *)

Record Rng := mkRng { tape : nat -> N; pos : nat }.

Definition next_raw (g : Rng) : N * Rng :=
  (tape g (pos g), mkRng (tape g) (S (pos g))).

Definition random (g : Rng) : Q * Rng :=
  let (r, g') := next_raw g in
  (Z.of_N (r mod 2 ^ 53) # 2 ^ 53, g').

Definition randint (a b : Z) (g : Rng) : Z * Rng :=
  let (r, g') := next_raw g in
  (a + Z.of_N r mod (b - a + 1), g').

Definition uniform (a b : Q) (g : Rng) : Q * Rng :=
  let (x, g') := random g in
  ((a + (b - a) * x)%Q, g').

(** ** Data model *)

(** [class Status]: [NONE = None] is [None : Status]. *)
Inductive StatusKind := PARALYSIS | BURN | POISON.
Definition Status := option StatusKind.

Definition StatusKind_eqb (a b : StatusKind) : bool :=
  match a, b with
  | PARALYSIS, PARALYSIS | BURN, BURN | POISON, POISON => true
  | _, _ => false
  end.

Definition Status_eqb (a b : Status) : bool :=
  match a, b with
  | None, None => true
  | Some x, Some y => StatusKind_eqb x y
  | _, _ => false
  end.

(** One element of [effect_entries]; both keys are read with [.get(k, '')]. *)
Record EffectEntry := mkEffect {
  effect : option string;
  short_effect : option string
}.

(** The dict returned by [get_move_data], restricted to the keys the
    simulator reads. *)
Record Move := mkMove {
  m_name : string;
  m_power : option Z;
  m_accuracy : option Z;
  m_type : string;
  m_damage_class : option string;
  m_effect_entries : list EffectEntry;
  m_effect_chance : option Z
}.

(** An element of [poke['moves']]. *)
Record MoveRef := mkMoveRef { mr_name : string; mr_url : string }.

(** The dict returned by [get_pokemon_data], restricted likewise. *)
Record Pokemon := mkPokemon {
  p_name : string;
  p_stats : gmap string Z;
  p_types : list string;
  p_moves : list MoveRef
}.

(** An element of the [/type] listing, and a fetched type record: its
    [name] and the names under the three [damage_relations] keys the
    builder reads (an absent key is the empty list). *)
Record TypeRef := mkTypeRef { t_name : string; t_url : string }.

Record TypeData := mkTypeData {
  td_name : string;
  double_damage_to : list string;
  half_damage_to : list string;
  no_damage_to : list string
}.

(** The upstream service as seen through [fetch_json]: the dict
    [get_pokemon_data] and [get_move_data] build for a lower-cased name
    ([None] when one of their fetches raises), the [/type] listing, the
    record behind each type url, and the generator state that
    [random.seed(s)] installs. *)
Record World := mkWorld {
  upstream_pokemon : string -> option Pokemon;
  upstream_move : string -> option Move;
  upstream_types : option (list TypeRef);
  upstream_type : string -> option TypeData;
  seed : Z -> Rng
}.

Definition get_pokemon_data (w : World) (name_or_id : string)
    : option Pokemon :=
  upstream_pokemon w (lower name_or_id).

Definition get_move_data (w : World) (name_or_id : string) : option Move :=
  upstream_move w (lower name_or_id).

(** ** Damage *)

Definition calc_damage (level power : Z) (attack defense modifier : Q)
    (g : Rng) : Z * Rng :=
  let base := ((inject_Z (2 * level) / inject_Z 5 + inject_Z 2)
               * inject_Z power * (attack / Qmax 1 defense)
               / inject_Z 50 + inject_Z 2)%Q in
  let (rand, g') := uniform (85 # 100) 1 g in
  let dmg := trunc (base * modifier * rand) in
  (Z.max 1 dmg, g').

(** ** Move selection *)

Definition damaging_class (c : option string) : bool :=
  match c with
  | Some s => String.eqb s "physical" || String.eqb s "special"
  | None => false
  end.

(** The first name of [provided] that loads. *)
Fixpoint first_loaded (w : World) (provided : list string) : option Move :=
  match provided with
  | [] => None
  | name :: rest =>
      match get_move_data w name with
      | Some mv => Some mv
      | None => first_loaded w rest
      end
  end.

(** The fallback scan: [candidates] after the [for] loop. *)
Fixpoint scan_candidates (w : World) (mvs : list MoveRef) : list Move :=
  match mvs with
  | [] => []
  | mv :: rest =>
      match get_move_data w (mr_name mv) with
      | Some md =>
          if truthy (m_power md) && damaging_class (m_damage_class md)
          then md :: scan_candidates w rest
          else scan_candidates w rest
      | None => scan_candidates w rest
      end
  end.

Definition power_key (x : Move) : Z := py_or (m_power x) 0.

(** [list.sort(key=..., reverse=True)]: stable, descending. *)
Fixpoint insert_desc (x : Move) (l : list Move) : list Move :=
  match l with
  | [] => [x]
  | y :: r =>
      if power_key x <? power_key y then y :: insert_desc x r
      else x :: y :: r
  end.

Fixpoint sort_desc (l : list Move) : list Move :=
  match l with
  | [] => []
  | x :: r => insert_desc x (sort_desc r)
  end.

Definition struggle (first_type : string) : Move :=
  mkMove "struggle" (Some 50) (Some 100) first_type (Some "physical"%string)
         [] None.

Definition select_move (w : World) (poke : Pokemon)
    (provided : option (list string)) : option Move :=
  let fallback :=
    match sort_desc (scan_candidates w (firstn 40 (p_moves poke))) with
    | best :: _ => Some best
    | [] =>
        match p_types poke with
        | ty :: _ => Some (struggle ty)
        | [] => None
        end
    end in
  match provided with
  | Some ((_ :: _) as names) =>
      match first_loaded w names with
      | Some mv => Some mv
      | None => fallback
      end
  | _ => fallback
  end.

(** ** Status engine *)

Definition entry_text (e : EffectEntry) : string :=
  String.append (default EmptyString (effect e))
    (String.append " " (default EmptyString (short_effect e))).

Definition detect_status_from_move (move : Move) : Status :=
  let texts := join " " (map entry_text (m_effect_entries move)) in
  let t := lower texts in
  if contains "paraly" t || contains "paralys" t then Some PARALYSIS
  else if contains "burn" t then Some BURN
  else if contains "poison" t then Some POISON
  else None.

Definition apply_status_chance (move : Move) (target_status : Status)
    (g : Rng) : Status * Rng :=
  match detect_status_from_move move with
  | None => (target_status, g)
  | Some status =>
      let chance := py_or (m_effect_chance move) 0 in
      if 0 <? chance then
        let (r, g') := randint 1 100 g in
        if r <=? chance then (Some status, g') else (target_status, g')
      else (target_status, g)
  end.

(** ** The type chart *)

Abbreviation Chart := (gmap string (gmap string Q)).

(** [for d in ds: row[d] = v]. *)
Definition set_all (ds : list string) (v : Q) (row : gmap string Q)
    : gmap string Q :=
  foldl (fun r d => <[d := v]> r) row ds.

(** One iteration of [for t in types_list]; a failed fetch is skipped. *)
Definition chart_step (w : World) (types_list : list TypeRef)
    (chart : Chart) (t : TypeRef) : Chart :=
  match upstream_type w (t_url t) with
  | None => chart
  | Some tdata =>
      let atk := td_name tdata in
      let row0 := default ∅ (chart !! atk) in
      let row1 := set_all (map t_name types_list) 1%Q row0 in
      let row2 := set_all (double_damage_to tdata) 2%Q row1 in
      let row3 := set_all (half_damage_to tdata) (1 # 2)%Q row2 in
      let row4 := set_all (no_damage_to tdata) 0%Q row3 in
      <[atk := row4]> chart
  end.

(** [cached] is the entry of the process cache under ["type_chart"]; the
    listing fetch is not guarded, so its failure raises. *)
Definition build_type_chart (w : World) (cached : option Chart)
    : option Chart :=
  match cached with
  | Some chart => Some chart
  | None =>
      match upstream_types w with
      | None => None
      | Some types_list => Some (foldl (chart_step w types_list) ∅ types_list)
      end
  end.

Definition type_multiplier (type_chart : Chart) (move_type : string)
    (target_types : list string) : Q :=
  foldl (fun mult t =>
           (mult * default 1 (default ∅ (type_chart !! move_type) !! t))%Q)
        1%Q target_types.

(** ** The battle *)

Record BattleRequest := mkRequest {
  attacker : string;
  defender : string;
  attacker_moves : option (list string);
  defender_moves : option (list string);
  level : option Z;
  max_turns : option Z;
  random_seed : option Z
}.

(** One constructor per [log.append] of the source. *)
Inductive Event :=
| EvTurn (n : Z)
| EvParalyzed (user : string)
| EvMissed (user move : string)
| EvUsed (user move : string) (dmg : Z) (mult : Q)
| EvNoDamage (user move : string)
| EvStatus (target : string) (st : StatusKind)
| EvBurn (name : string) (dmg : Z)
| EvPoison (name : string) (dmg : Z).

Record BattleOutcome := mkOutcome {
  winner : option string;
  turns : Z;
  out_log : list Event
}.

(** What [simulate_battle] computes once, before the loop. *)
Record Setup := mkSetup {
  req : BattleRequest;
  attacker_data : Pokemon;
  defender_data : Pokemon;
  type_chart : Chart;
  L : Z;
  atk_hp : Z;
  def_hp : Z;
  atk_attack : Z;
  atk_sp_atk : Z;
  atk_speed : Z;
  def_attack : Z;
  def_sp_atk : Z;
  def_speed : Z;
  atk_move : Move;
  def_move : Move
}.

(** The variables the loop mutates. *)
Record BState := mkBState {
  atk_curr : Z;
  def_curr : Z;
  atk_status : Status;
  def_status : Status;
  turn : Z;
  log : list Event
}.

Definition log_append (s : BState) (e : Event) : BState :=
  mkBState (atk_curr s) (def_curr s) (atk_status s) (def_status s) (turn s)
           (log s ++ [e]).

Definition set_atk_curr (s : BState) (v : Z) : BState :=
  mkBState v (def_curr s) (atk_status s) (def_status s) (turn s) (log s).

Definition set_def_curr (s : BState) (v : Z) : BState :=
  mkBState (atk_curr s) v (atk_status s) (def_status s) (turn s) (log s).

Definition set_atk_status (s : BState) (v : Status) : BState :=
  mkBState (atk_curr s) (def_curr s) v (def_status s) (turn s) (log s).

Definition set_def_status (s : BState) (v : Status) : BState :=
  mkBState (atk_curr s) (def_curr s) (atk_status s) v (turn s) (log s).

Definition set_turn (s : BState) (v : Z) : BState :=
  mkBState (atk_curr s) (def_curr s) (atk_status s) (def_status s) v (log s).

Definition Qlt_bool (x y : Q) : bool := negb (Qle_bool y x).

Definition hits (accuracy : option Z) (g : Rng) : bool * Rng :=
  match accuracy with
  | None => (true, g)
  | Some a => let (r, g') := randint 1 100 g in (r <=? Z.max 1 a, g')
  end.

Definition is_physical (move : Move) : bool :=
  match m_damage_class move with
  | Some s => String.eqb s "physical"
  | None => false
  end.

(** [user_status == Status.PARALYSIS and random.random() < 0.25]: the draw
    happens only for a paralysed user. *)
Definition paralysis_skip (user_status : Status) (g : Rng) : bool * Rng :=
  if Status_eqb user_status (Some PARALYSIS) then
    let (x, g') := random g in (Qlt_bool x (25 # 100), g')
  else (false, g).

(** How the body of the [for actor] loop was left: by [continue], or by
    reaching the faint check at its end. *)
Inductive Flow := Continue | Fallthrough.

(** The branch [actor == "attacker"]. *)
Definition act_attacker (c : Setup) (s : BState) (g : Rng)
    : Flow * BState * Rng :=
  let user_name := p_name (attacker_data c) in
  let target_name := p_name (defender_data c) in
  let move := atk_move c in
  let (skip, g1) := paralysis_skip (atk_status s) g in
  if skip then (Continue, log_append s (EvParalyzed user_name), g1) else
  let (hit, g2) := hits (m_accuracy move) g1 in
  if negb hit then
    (Continue, log_append s (EvMissed user_name (m_name move)), g2) else
  let power := py_or (m_power move) 0 in
  let (s3, g3) :=
    if 0 <? power then
      let physical := is_physical move in
      let attack_stat := if physical then atk_attack c else atk_sp_atk c in
      let defense_stat := if physical then def_attack c else def_sp_atk c in
      let stab :=
        if existsb (String.eqb (m_type move)) (p_types (attacker_data c))
        then (3 # 2)%Q else 1%Q in
      let mult := type_multiplier (type_chart c) (m_type move)
                                  (p_types (defender_data c)) in
      let (x, g') := random g2 in
      let crit := if Qlt_bool x (625 # 10000) then (3 # 2)%Q else 1%Q in
      let eff_attack :=
        (inject_Z attack_stat *
         (if Status_eqb (atk_status s) (Some BURN) && physical
          then 1 # 2 else 1))%Q in
      let modifier := (stab * mult * crit)%Q in
      let (dmg, g'') :=
        calc_damage (L c) power eff_attack (inject_Z defense_stat) modifier
                    g' in
      (log_append (set_def_curr s (Z.max 0 (def_curr s - dmg)))
                  (EvUsed user_name (m_name move) dmg mult), g'')
    else (log_append s (EvNoDamage user_name (m_name move)), g2) in
  let (new_status, g4) := apply_status_chance move (def_status s3) g3 in
  match new_status with
  | Some st =>
      if negb (Status_eqb new_status (def_status s3)) then
        (Fallthrough,
         log_append (set_def_status s3 new_status) (EvStatus target_name st),
         g4)
      else (Fallthrough, s3, g4)
  | None => (Fallthrough, s3, g4)
  end.

(** The [else] branch: the defender acts. *)
Definition act_defender (c : Setup) (s : BState) (g : Rng)
    : Flow * BState * Rng :=
  let user_name := p_name (defender_data c) in
  let target_name := p_name (attacker_data c) in
  let move := def_move c in
  let (skip, g1) := paralysis_skip (def_status s) g in
  if skip then (Continue, log_append s (EvParalyzed user_name), g1) else
  let (hit, g2) := hits (m_accuracy move) g1 in
  if negb hit then
    (Continue, log_append s (EvMissed user_name (m_name move)), g2) else
  let power := py_or (m_power move) 0 in
  let (s3, g3) :=
    if 0 <? power then
      let physical := is_physical move in
      let attack_stat := if physical then def_attack c else def_sp_atk c in
      let defense_stat := if physical then atk_attack c else atk_sp_atk c in
      let stab :=
        if existsb (String.eqb (m_type move)) (p_types (defender_data c))
        then (3 # 2)%Q else 1%Q in
      let mult := type_multiplier (type_chart c) (m_type move)
                                  (p_types (attacker_data c)) in
      let (x, g') := random g2 in
      let crit := if Qlt_bool x (625 # 10000) then (3 # 2)%Q else 1%Q in
      let eff_attack :=
        (inject_Z attack_stat *
         (if Status_eqb (def_status s) (Some BURN) && physical
          then 1 # 2 else 1))%Q in
      let modifier := (stab * mult * crit)%Q in
      let (dmg, g'') :=
        calc_damage (L c) power eff_attack (inject_Z defense_stat) modifier
                    g' in
      (log_append (set_atk_curr s (Z.max 0 (atk_curr s - dmg)))
                  (EvUsed user_name (m_name move) dmg mult), g'')
    else (log_append s (EvNoDamage user_name (m_name move)), g2) in
  let (new_status, g4) := apply_status_chance move (atk_status s3) g3 in
  match new_status with
  | Some st =>
      if negb (Status_eqb new_status (atk_status s3)) then
        (Fallthrough,
         log_append (set_atk_status s3 new_status) (EvStatus target_name st),
         g4)
      else (Fallthrough, s3, g4)
  | None => (Fallthrough, s3, g4)
  end.

Inductive Actor := Attacker | Defender.

Definition act (c : Setup) (actor : Actor) (s : BState) (g : Rng)
    : Flow * BState * Rng :=
  match actor with
  | Attacker => act_attacker c s g
  | Defender => act_defender c s g
  end.

Definition fainted (s : BState) : bool :=
  (atk_curr s <=? 0) || (def_curr s <=? 0).

(** [for actor in (first, second)] with its [break]s and [continue]s. *)
Fixpoint for_actors (c : Setup) (actors : list Actor) (s : BState) (g : Rng)
    : BState * Rng :=
  match actors with
  | [] => (s, g)
  | actor :: rest =>
      if fainted s then (s, g) else
      match act c actor s g with
      | (Continue, s', g') => for_actors c rest s' g'
      | (Fallthrough, s', g') =>
          if fainted s' then (s', g') else for_actors c rest s' g'
      end
  end.

(** The closure [apply_eot]: it returns the new HP and appends to [log]. *)
Definition apply_eot (name : string) (status : Status) (curr_hp max_hp : Z)
    (lg : list Event) : Z * list Event :=
  match status with
  | Some BURN =>
      let dmg := Z.max 1 (trunc (inject_Z max_hp / inject_Z 16)) in
      (Z.max 0 (curr_hp - dmg), lg ++ [EvBurn name dmg])
  | Some POISON =>
      let dmg := Z.max 1 (trunc (inject_Z max_hp / inject_Z 8)) in
      (Z.max 0 (curr_hp - dmg), lg ++ [EvPoison name dmg])
  | _ => (curr_hp, lg)
  end.

Definition set_log (s : BState) (lg : list Event) : BState :=
  mkBState (atk_curr s) (def_curr s) (atk_status s) (def_status s) (turn s) lg.

Definition eot_attacker (c : Setup) (s : BState) : BState :=
  let (hp, lg) := apply_eot (p_name (attacker_data c)) (atk_status s)
                            (atk_curr s) (atk_hp c) (log s) in
  set_log (set_atk_curr s hp) lg.

Definition eot_defender (c : Setup) (s : BState) : BState :=
  let (hp, lg) := apply_eot (p_name (defender_data c)) (def_status s)
                            (def_curr s) (def_hp c) (log s) in
  set_log (set_def_curr s hp) lg.

Definition eff_spd (speed : Z) (status : Status) : Q :=
  (inject_Z speed
   * (if Status_eqb status (Some PARALYSIS) then 1 # 2 else 1))%Q.

Definition actor_order (c : Setup) (s : BState) : list Actor :=
  let atk_eff_spd := eff_spd (atk_speed c) (atk_status s) in
  let def_eff_spd := eff_spd (def_speed c) (def_status s) in
  let first_attacker := Qle_bool def_eff_spd atk_eff_spd in
  if first_attacker then [Attacker; Defender] else [Defender; Attacker].

(** The actions of one turn: the header line and the [for actor] loop. *)
Definition turn_actions (c : Setup) (s : BState) (g : Rng) : BState * Rng :=
  let s1 := set_turn s (turn s + 1) in
  let s2 := log_append s1 (EvTurn (turn s1)) in
  for_actors c (actor_order c s2) s2 g.

(** One iteration of the [while] body, up to its final [break] test. *)
Definition turn_body (c : Setup) (s : BState) (g : Rng) : BState * Rng :=
  let (s3, g3) := turn_actions c s g in
  (eot_defender c (eot_attacker c s3), g3).

Definition loop_cond (c : Setup) (s : BState) : bool :=
  (turn s <? py_or (max_turns (req c)) 200)
  && (0 <? atk_curr s) && (0 <? def_curr s).

(** The [while] loop; [fuel] bounds the number of iterations. *)
Fixpoint run_loop (fuel : nat) (c : Setup) (s : BState) (g : Rng)
    : BState * Rng :=
  match fuel with
  | O => (s, g)
  | S n =>
      if loop_cond c s then
        let (s', g') := turn_body c s g in
        if fainted s' then (s', g') else run_loop n c s' g'
      else (s, g)
  end.

Definition stat_or_10 (stats : gmap string Z) (k : string) : Z :=
  default 10 (stats !! k).

Definition decide_winner (c : Setup) (s : BState) : option string :=
  if (0 <? atk_curr s) && (def_curr s <=? 0) then
    Some (p_name (attacker_data c))
  else if (0 <? def_curr s) && (atk_curr s <=? 0) then
    Some (p_name (defender_data c))
  else None.

(** Everything before the loop; [None] when a loader raises. *)
Definition setup (w : World) (cached : option Chart) (r : BattleRequest)
    : option Setup :=
  match get_pokemon_data w (attacker r), get_pokemon_data w (defender r) with
  | Some a, Some d =>
      match build_type_chart w cached with
      | Some chart =>
          let lv := py_or (level r) 50 in
          match select_move w a (attacker_moves r) with
          | Some am =>
              match select_move w d (defender_moves r) with
              | Some dm =>
                  Some (mkSetup r a d chart lv
                          (compute_hp_from_base (stat_or_10 (p_stats a) "hp") lv)
                          (compute_hp_from_base (stat_or_10 (p_stats d) "hp") lv)
                          (stat_at_level (stat_or_10 (p_stats a) "attack") lv)
                          (stat_at_level (stat_or_10 (p_stats a) "special-attack") lv)
                          (stat_at_level (stat_or_10 (p_stats a) "speed") lv)
                          (stat_at_level (stat_or_10 (p_stats d) "attack") lv)
                          (stat_at_level (stat_or_10 (p_stats d) "special-attack") lv)
                          (stat_at_level (stat_or_10 (p_stats d) "speed") lv)
                          am dm)
              | None => None
              end
          | None => None
          end
      | None => None
      end
  | _, _ => None
  end.

Definition initial_state (c : Setup) : BState :=
  mkBState (atk_hp c) (def_hp c) None None 0 [].

(** The number of iterations the [while] loop can make. *)
Definition loop_fuel (c : Setup) : nat :=
  Z.to_nat (py_or (max_turns (req c)) 200).

(** [g0] is the state of the global generator when the request arrives. *)
Definition simulate_battle (w : World) (cached : option Chart) (g0 : Rng)
    (r : BattleRequest) : option BattleOutcome :=
  let g := match random_seed r with
           | Some sd => seed w sd
           | None => g0
           end in
  match setup w cached r with
  | None => None
  | Some c =>
      let (s, _) := run_loop (loop_fuel c) c (initial_state c) g in
      Some (mkOutcome (decide_winner c s) (turn s) (log s))
  end.

(** ** Views of the state by acting side *)

Definition user_name (c : Setup) (actor : Actor) : string :=
  match actor with
  | Attacker => p_name (attacker_data c)
  | Defender => p_name (defender_data c)
  end.

Definition target_name (c : Setup) (actor : Actor) : string :=
  match actor with
  | Attacker => p_name (defender_data c)
  | Defender => p_name (attacker_data c)
  end.

Definition move_of (c : Setup) (actor : Actor) : Move :=
  match actor with
  | Attacker => atk_move c
  | Defender => def_move c
  end.

Definition user_hp (actor : Actor) (s : BState) : Z :=
  match actor with
  | Attacker => atk_curr s
  | Defender => def_curr s
  end.

Definition target_hp (actor : Actor) (s : BState) : Z :=
  match actor with
  | Attacker => def_curr s
  | Defender => atk_curr s
  end.

Definition user_status (actor : Actor) (s : BState) : Status :=
  match actor with
  | Attacker => atk_status s
  | Defender => def_status s
  end.

Definition target_status (actor : Actor) (s : BState) : Status :=
  match actor with
  | Attacker => def_status s
  | Defender => atk_status s
  end.

(** The program points of the loop at which the state changes. *)
Inductive step (c : Setup) : BState * Rng -> BState * Rng -> Prop :=
| step_header s g :
    step c (s, g)
         (log_append (set_turn s (turn s + 1)) (EvTurn (turn s + 1)), g)
| step_act actor s g fl s' g' :
    act c actor s g = (fl, s', g') -> step c (s, g) (s', g')
| step_eot_attacker s g : step c (s, g) (eot_attacker c s, g)
| step_eot_defender s g : step c (s, g) (eot_defender c s, g).

Definition hp_bounded (c : Setup) (s : BState) : Prop :=
  0 <= atk_curr s <= atk_hp c /\ 0 <= def_curr s <= def_hp c.

Definition hp_le (s' s : BState) : Prop :=
  atk_curr s' <= atk_curr s /\ def_curr s' <= def_curr s.

(** ** Definitions used to state the properties *)

Definition hp_nonneg (s : BState) : Prop := 0 <= atk_curr s /\ 0 <= def_curr s.

(** What the status attempt at the end of an action logs, and the status it
    leaves on the target, given the status [new] the engine returned. *)
Definition status_events (target : string) (old new : Status) : list Event :=
  match new with
  | Some st => if negb (Status_eqb new old) then [EvStatus target st] else []
  | None => []
  end.

Definition status_after (old new : Status) : Status :=
  match new with
  | Some _ => if negb (Status_eqb new old) then new else old
  | None => old
  end.

(** The tick a status causes at the end of the turn, with the floor written
    as integer division. *)
Definition eot_damage (status : Status) (max_hp : Z) : option Z :=
  match status with
  | Some BURN => Some (Z.max 1 (max_hp / 16))
  | Some POISON => Some (Z.max 1 (max_hp / 8))
  | _ => None
  end.

Definition eot_events (name : string) (status : Status) (max_hp : Z)
    : list Event :=
  match status with
  | Some BURN => [EvBurn name (Z.max 1 (max_hp / 16))]
  | Some POISON => [EvPoison name (Z.max 1 (max_hp / 8))]
  | _ => []
  end.

Definition after_tick (status : Status) (curr_hp max_hp : Z) : Z :=
  match eot_damage status max_hp with
  | Some dmg => Z.max 0 (curr_hp - dmg)
  | None => curr_hp
  end.

(** The candidates of the fallback scan as the spec words them: of the
    moves that load among the first 40 known ones, those with positive
    power and class physical or special. *)
Definition loaded_moves (w : World) (mvs : list MoveRef) : list Move :=
  omap (fun mv => get_move_data w (mr_name mv)) mvs.

Definition power_of (md : Move) : Z := default 0 (m_power md).

Definition qualifies (md : Move) : bool :=
  (0 <? power_of md) && damaging_class (m_damage_class md).

Definition spec_candidates (w : World) (poke : Pokemon) : list Move :=
  List.filter qualifies (loaded_moves w (firstn 40 (p_moves poke))).

(** The four multipliers of the chart. *)
Definition chart_value (v : Q) : Prop :=
  v = 0%Q \/ v = (1 # 2)%Q \/ v = 1%Q \/ v = 2%Q.

Definition row_values (row : gmap string Q) : Prop :=
  forall d v, row !! d = Some v -> chart_value v.

(** Every stored multiplier is one of the four constants. *)
Definition chart_values (chart : Chart) : Prop :=
  forall a row, chart !! a = Some row -> row_values row.

(** Every row has every listed type as a defending key. *)
Definition rows_complete (types_list : list TypeRef) (chart : Chart) : Prop :=
  forall a row d,
    chart !! a = Some row -> d ∈ map t_name types_list -> is_Some (row !! d).

(** [d] has no explicit relation in any record named [a] that loads for a
    type of [l]. *)
Definition unrelated (w : World) (l : list TypeRef) (a d : string) : Prop :=
  forall t tdata,
    t ∈ l -> upstream_type w (t_url t) = Some tdata -> td_name tdata = a ->
    (d ∉ double_damage_to tdata) /\ (d ∉ half_damage_to tdata)
    /\ (d ∉ no_damage_to tdata).

(** The row [chart_step] writes for a loaded record. *)
Definition built_row (types_list : list TypeRef) (tdata : TypeData)
    (row0 : gmap string Q) : gmap string Q :=
  set_all (no_damage_to tdata) 0%Q
    (set_all (half_damage_to tdata) (1 # 2)%Q
       (set_all (double_damage_to tdata) 2%Q
          (set_all (map t_name types_list) 1%Q row0))).

(** ** A fixture world

    Five moves, two creatures and four listed types, one of which fails to
    load; the seeded generator is a linear congruence of the seed and the
    draw index. *)
Module Fixture.

Definition ember : Move :=
  mkMove "ember" (Some 40) (Some 100) "fire" (Some "special"%string)
    [mkEffect (Some "Has a $effect_chance% chance to burn the target."%string)
              (Some "Has a 10% chance to burn the target."%string)]
    (Some 10).

Definition tackle : Move :=
  mkMove "tackle" (Some 40) (Some 100) "normal" (Some "physical"%string)
    [mkEffect (Some "Inflicts regular damage."%string) None] None.

Definition growl : Move :=
  mkMove "growl" None (Some 100) "normal" (Some "status"%string) [] None.

Definition scorch : Move :=
  mkMove "scorch" (Some 250) None "fire" (Some "physical"%string)
    [mkEffect (Some "Burns the target."%string) None] (Some 100).

Definition mega_kick : Move :=
  mkMove "mega-kick" (Some 120) (Some 75) "normal" (Some "physical"%string)
    [mkEffect (Some "Inflicts regular damage."%string) None] None.

Definition moves (n : string) : option Move :=
  if String.eqb n "ember" then Some ember
  else if String.eqb n "tackle" then Some tackle
  else if String.eqb n "growl" then Some growl
  else if String.eqb n "scorch" then Some scorch
  else if String.eqb n "mega-kick" then Some mega_kick
  else None.

Definition charmander : Pokemon :=
  mkPokemon "charmander"
    (list_to_map [("hp"%string, 39); ("attack"%string, 52);
                  ("special-attack"%string, 60); ("speed"%string, 65)])
    ["fire"%string]
    [mkMoveRef "growl" "m/45"; mkMoveRef "tackle" "m/33";
     mkMoveRef "ember" "m/52"].

Definition bulbasaur : Pokemon :=
  mkPokemon "bulbasaur"
    (list_to_map [("hp"%string, 45); ("attack"%string, 49);
                  ("special-attack"%string, 65); ("speed"%string, 45)])
    ["grass"%string; "poison"%string]
    [mkMoveRef "tackle" "m/33"; mkMoveRef "growl" "m/45"].

Definition pokemon (n : string) : option Pokemon :=
  if String.eqb n "charmander" then Some charmander
  else if String.eqb n "bulbasaur" then Some bulbasaur
  else None.

Definition fire_ref : TypeRef := mkTypeRef "fire" "t/10".

Definition types : list TypeRef :=
  [mkTypeRef "normal" "t/1"; fire_ref;
   mkTypeRef "grass" "t/12"; mkTypeRef "poison" "t/4"].

Definition fire_record : TypeData :=
  mkTypeData "fire" ["grass"%string] ["fire"%string] [].

Definition type_record (url : string) : option TypeData :=
  if String.eqb url "t/1" then Some (mkTypeData "normal" [] [] ["ghost"%string])
  else if String.eqb url "t/10" then Some fire_record
  else if String.eqb url "t/12" then
    Some (mkTypeData "grass" []
                     ["fire"%string; "grass"%string; "poison"%string] [])
  else None.

Definition stream (sd : Z) (n : nat) : N :=
  ((Z.to_N (Z.abs sd) + N.of_nat n + 1) * 6364136223846793005
   + 1442695040888963407) mod 2 ^ 64.

Definition world : World :=
  mkWorld pokemon moves (Some types) type_record
          (fun sd => mkRng (stream sd) 0).

(** Generator states: every raw word 0, and every raw word 80. *)
Definition idle_rng : Rng := mkRng (fun _ => 0%N) 0.
Definition high_rng : Rng := mkRng (fun _ => 80%N) 0.

Definition request (a d : string) (am dm : option (list string))
    (mt sd : option Z) : BattleRequest :=
  mkRequest a d am dm None mt sd.

(** Charmander against Bulbasaur with [max_turns = 0] and seed 7. *)
Definition zero_turns_request : BattleRequest :=
  request "Charmander" "Bulbasaur" None None (Some 0) (Some 7).

(** Bulbasaur, with mega-kick, against Charmander, with scorch, seed 1. *)
Definition burn_request : BattleRequest :=
  request "Bulbasaur" "Charmander" (Some ["mega-kick"%string])
          (Some ["scorch"%string]) None (Some 1).

Definition chart : Chart := default ∅ (build_type_chart world None).

Definition blank : Setup :=
  mkSetup burn_request bulbasaur charmander ∅ 0 0 0 0 0 0 0 0 0 tackle tackle.

(** The setup of [burn_request]. *)
Definition duel : Setup := default blank (setup world None burn_request).

End Fixture.

(** ** Further definitions

    The evolution chain of [pokemon_data.py] and of [get_pokemon_data], and
    definitions used to state further properties. *)

(** A node of the upstream evolution chain: [chain['species']['name']] and
    [chain.get('evolves_to', [])]. *)
#[warnings="-register-all"]
Inductive Chain := ChainNode (species : string) (evolves_to : list Chain).

(** The local function [flatten]: the species of the node, then the
    flattened children in order. *)
Fixpoint flatten (chain : Chain) : list string :=
  match chain with
  | ChainNode sp children =>
      sp :: (fix extend (cs : list Chain) : list string :=
               match cs with
               | [] => []
               | child :: rest => flatten child ++ extend rest
               end) children
  end.

(** [evo_chain] as the [pokemon] route computes it: empty when the species
    record has no [evolution_chain]. *)
Definition evolution_chain (evo : option Chain) : list string :=
  match evo with
  | Some chain => flatten chain
  | None => []
  end.

(** The number of species in a chain. *)
Fixpoint chain_size (chain : Chain) : nat :=
  match chain with
  | ChainNode _ children =>
      S ((fix total (cs : list Chain) : nat :=
            match cs with
            | [] => O
            | child :: rest => (chain_size child + total rest)%nat
            end) children)
  end.

(** The chain in which each species evolves into the next one only. *)
Fixpoint linear_chain (first : string) (later : list string) : Chain :=
  match later with
  | [] => ChainNode first []
  | next :: rest => ChainNode first [linear_chain next rest]
  end.

(** The multiplier [type_multiplier] reads for one defending type. *)
Definition pair_multiplier (type_chart : Chart) (move_type t : string) : Q :=
  default 1%Q (default ∅ (type_chart !! move_type) !! t).

(** The value a loaded type record gives a defending type: the last write
    of [chart_step] wins. *)
Definition relation_value (tdata : TypeData) (d : string) : Q :=
  if bool_decide (d ∈ no_damage_to tdata) then 0%Q
  else if bool_decide (d ∈ half_damage_to tdata) then (1 # 2)%Q
  else if bool_decide (d ∈ double_damage_to tdata) then 2%Q
  else 1%Q.

(** The turn numbers of the header lines of a log. *)
Definition turn_headers (lg : list Event) : list Z :=
  omap (fun e => match e with EvTurn n => Some n | _ => None end) lg.

(** The status a side can be given: the one its opponent's move carries. *)
Definition inflicted_on (c : Setup) (side : Actor) : Status :=
  match side with
  | Attacker => detect_status_from_move (def_move c)
  | Defender => detect_status_from_move (atk_move c)
  end.

Definition status_of (side : Actor) (s : BState) : Status :=
  match side with
  | Attacker => atk_status s
  | Defender => def_status s
  end.

(** The state at which the loop of [simulate_battle] exits. *)
Definition final_state (c : Setup) (g : Rng) : BState :=
  fst (run_loop (loop_fuel c) c (initial_state c) g).

Definition set_target_hp (actor : Actor) (s : BState) (v : Z) : BState :=
  match actor with
  | Attacker => set_def_curr s v
  | Defender => set_atk_curr s v
  end.

Definition set_target_status (actor : Actor) (s : BState) (v : Status)
    : BState :=
  match actor with
  | Attacker => set_def_status s v
  | Defender => set_atk_status s v
  end.

(** The state an action leaves once the accuracy check has passed, given
    the state [s3] after the damage step and the status [new] returned by
    the status engine. *)
Definition after_status (c : Setup) (actor : Actor) (s3 : BState)
    (new : Status) : BState :=
  match new with
  | Some st =>
      if negb (Status_eqb new (target_status actor s3)) then
        log_append (set_target_status actor s3 new)
                   (EvStatus (target_name c actor) st)
      else s3
  | None => s3
  end.

Definition hp_of (side : Actor) (s : BState) : Z :=
  match side with
  | Attacker => atk_curr s
  | Defender => def_curr s
  end.

Definition max_hp_of (c : Setup) (side : Actor) : Z :=
  match side with
  | Attacker => atk_hp c
  | Defender => def_hp c
  end.

Definition opponent (side : Actor) : Actor :=
  match side with
  | Attacker => Defender
  | Defender => Attacker
  end.

(** The generator [simulate_battle] runs the loop with. *)
Definition battle_rng (w : World) (g0 : Rng) (r : BattleRequest) : Rng :=
  match random_seed r with
  | Some sd => seed w sd
  | None => g0
  end.

(** Every record that loads under the name [a] for a type of [l] is
    [tdata]. *)
Definition only_record (w : World) (a : string) (tdata : TypeData)
    (l : list TypeRef) : Prop :=
  forall t td, t ∈ l -> upstream_type w (t_url t) = Some td ->
               td_name td = a -> td = tdata.

(** The row of [a] gives every listed type the relation value of
    [tdata]. *)
Definition row_matches (types_list : list TypeRef) (a : string)
    (tdata : TypeData) (chart : Chart) : Prop :=
  exists row, chart !! a = Some row
    /\ forall d, d ∈ map t_name types_list ->
                 row !! d = Some (relation_value tdata d).

(** The lower-cased text [detect_status_from_move] searches. *)
Definition status_text (move : Move) : string :=
  lower (join " " (map entry_text (m_effect_entries move))).

(** A keyword occurs, in any letter case, in one of the two texts of an
    effect entry. *)
Definition entry_mentions (kw : string) (e : EffectEntry) : bool :=
  contains kw (lower (default EmptyString (effect e)))
  || contains kw (lower (default EmptyString (short_effect e))).

(** ** [calc_damage] as Python evaluates it

    The loop above computes with exact rationals.  Python evaluates
    [calc_damage] on its numbers: an [int] is unbounded, a [float] is an
    IEEE 754 binary64, every operation on floats rounds to nearest even,
    an [int] meeting a [float] is converted first ([OverflowError] above
    the float range), [/] raises [ZeroDivisionError] on a zero divisor,
    and [int(x)] raises [OverflowError] on an infinity and [ValueError] on
    a NaN.  [Binary64.calc_damage] is lines 116-120 under these rules; the
    floats are those of the Standard Library's [SpecFloat] at precision 53
    and maximal exponent 1024. *)
Module Binary64.
Import SpecFloat.

Inductive PyExn := OverflowError | ValueError | ZeroDivisionError.

Inductive Result (A : Type) : Type := Ok (v : A) | Raise (e : PyExn).
Arguments Ok {A} v.
Arguments Raise {A} e.

Definition bind {A B : Type} (r : Result A) (k : A -> Result B) : Result B :=
  match r with
  | Ok v => k v
  | Raise e => Raise e
  end.

Definition prec : Z := 53.
Definition emax : Z := 1024.

Definition fadd : spec_float -> spec_float -> spec_float := SFadd prec emax.
Definition fsub : spec_float -> spec_float -> spec_float := SFsub prec emax.
Definition fmul : spec_float -> spec_float -> spec_float := SFmul prec emax.
Definition fdiv : spec_float -> spec_float -> spec_float := SFdiv prec emax.

(** The float nearest to an integer (an infinity beyond the range). *)
Definition of_Z (z : Z) : spec_float := binary_normalize prec emax z 0 false.

Definition is_finite (f : spec_float) : bool :=
  match f with
  | S754_zero _ | S754_finite _ _ _ => true
  | _ => false
  end.

Definition is_zero (f : spec_float) : bool :=
  match f with
  | S754_zero _ => true
  | _ => false
  end.

(** A Python number: an [int] or a [float]. *)
Inductive Num := Int (z : Z) | Float (f : spec_float).

(** The implicit conversion of an [int] operand that meets a [float]. *)
Definition float_of_int (z : Z) : Result spec_float :=
  let f := of_Z z in
  if is_finite f then Ok f else Raise OverflowError.

Definition to_float (n : Num) : Result spec_float :=
  match n with
  | Int z => float_of_int z
  | Float f => Ok f
  end.

(** [a / b] on two [int]s: the correctly rounded quotient. *)
Definition int_truediv (a b : Z) : Result spec_float :=
  if b =? 0 then Raise ZeroDivisionError else
  match a with
  | 0 => Ok (S754_zero (b <? 0))
  | _ =>
      let q := fdiv (S754_finite (a <? 0) (Z.to_pos (Z.abs a)) 0)
                    (S754_finite (b <? 0) (Z.to_pos (Z.abs b)) 0) in
      if is_finite q then Ok q else Raise OverflowError
  end.

Definition add (a b : Num) : Result Num :=
  match a, b with
  | Int x, Int y => Ok (Int (x + y))
  | _, _ =>
      bind (to_float a) (fun x =>
      bind (to_float b) (fun y => Ok (Float (fadd x y))))
  end.

Definition mul (a b : Num) : Result Num :=
  match a, b with
  | Int x, Int y => Ok (Int (x * y))
  | _, _ =>
      bind (to_float a) (fun x =>
      bind (to_float b) (fun y => Ok (Float (fmul x y))))
  end.

Definition truediv (a b : Num) : Result Num :=
  match a, b with
  | Int x, Int y => bind (int_truediv x y) (fun q => Ok (Float q))
  | _, _ =>
      bind (to_float a) (fun x =>
      bind (to_float b) (fun y =>
      if is_zero y then Raise ZeroDivisionError else Ok (Float (fdiv x y))))
  end.

(** [d > 1], exact between an [int] and a [float]; false on a NaN. *)
Definition gt_1 (d : Num) : bool :=
  match d with
  | Int z => 1 <? z
  | Float f =>
      match SFcompare f (of_Z 1) with
      | Some Gt => true
      | _ => false
      end
  end.

(** [max(1, d)]: the first argument unless the second is greater. *)
Definition max_1 (d : Num) : Num := if gt_1 d then d else Int 1.

(** [int(x)]: truncation toward zero on a finite float. *)
Definition int_of_float (f : spec_float) : Result Z :=
  match f with
  | S754_zero _ => Ok 0
  | S754_infinity _ => Raise OverflowError
  | S754_nan => Raise ValueError
  | S754_finite s m e =>
      let a := if 0 <=? e then Z.pos m * 2 ^ e else Z.pos m / 2 ^ (- e) in
      Ok (if s then - a else a)
  end.

Definition int (n : Num) : Result Z :=
  match n with
  | Int z => Ok z
  | Float f => int_of_float f
  end.

(** [random.random()]: a multiple of [2^-53] in [[0,1)]. *)
Definition random (g : Rng) : spec_float * Rng :=
  let (r, g') := next_raw g in
  (binary_normalize prec emax (Z.of_N (r mod 2 ^ 53)) (-53) false, g').

(** [random.uniform(a, b)] is [a + (b - a) * random()]. *)
Definition uniform (a b : spec_float) (g : Rng) : spec_float * Rng :=
  let (x, g') := random g in
  (fadd a (fmul (fsub b a) x), g').

(** The literals [0.85] and [1.0]. *)
Definition f0_85 : spec_float := fdiv (of_Z 85) (of_Z 100).
Definition f1_0 : spec_float := of_Z 1.

(** Line 117, operand by operand, left to right. *)
Definition damage_base (level power attack defense : Num) : Result Num :=
  bind (mul (Int 2) level) (fun a =>
  bind (truediv a (Int 5)) (fun b =>
  bind (add b (Int 2)) (fun c =>
  bind (mul c power) (fun d =>
  bind (truediv attack (max_1 defense)) (fun e =>
  bind (mul d e) (fun f =>
  bind (truediv f (Int 50)) (fun h =>
  add h (Int 2)))))))).

(** Lines 116-120.  The base is computed before the generator is read: a
    call that raises there leaves the generator as it was. *)
Definition calc_damage (level power attack defense modifier : Num) (g : Rng)
    : Result Z * Rng :=
  match damage_base level power attack defense with
  | Raise e => (Raise e, g)
  | Ok base =>
      let (rand, g') := uniform f0_85 f1_0 g in
      (bind (mul base modifier) (fun x =>
       bind (mul x (Float rand)) (fun y =>
       bind (int y) (fun dmg => Ok (Z.max 1 dmg)))), g')
  end.


(** Definitions used to state the properties of [calc_damage]. *)






End Binary64.

(** ** Further fixtures *)
Module Cases.

(** Charmander against a Bulbasaur that only growls, five turns, seed 5. *)
Definition growl_request : BattleRequest :=
  Fixture.request "Charmander" "Bulbasaur" None (Some ["growl"%string])
                  (Some 5) (Some 5).

Definition growl_duel : Setup :=
  default Fixture.blank (setup Fixture.world None growl_request).

Definition growl_outcome : BattleOutcome :=
  default (mkOutcome None 0 [])
          (simulate_battle Fixture.world None Fixture.idle_rng growl_request).

(** A creature record without types and without moves. *)
Definition typeless : Pokemon := mkPokemon "typeless" ∅ [] [].

(** An upstream whose only move record has a negative power, and a
    creature that knows this move only. *)
Definition recoil : Move :=
  mkMove "recoil" (Some (-10)) (Some 100) "normal" (Some "physical"%string)
         [] None.

Definition odd_world : World :=
  mkWorld (fun _ => None)
          (fun n => if String.eqb n "recoil" then Some recoil else None)
          None (fun _ => None) (fun sd => Fixture.idle_rng).

Definition odd : Pokemon :=
  mkPokemon "odd" ∅ ["normal"%string] [mkMoveRef "recoil" "m/0"].

End Cases.

(** * Properties *)

(** ** The generator *)

Lemma randint_range (a b : Z) (g : Rng) :
  a <= b -> a <= fst (randint a b g) <= b.
Proof.
  intros Hab. unfold randint, next_raw. cbn.
  pose proof (Z.mod_pos_bound (Z.of_N (tape g (pos g))) (b - a + 1)).
  lia.
Qed.

Lemma randint_1_100 (g : Rng) : 1 <= fst (randint 1 100 g) <= 100.
Proof. apply randint_range. lia. Qed.

(** ** Stat derivation *)

Example compute_hp_50_45 : compute_hp_from_base 45 50 = 120.
Proof. vm_compute. reflexivity. Qed.

Lemma trunc_inject_div (a : Z) (p : positive) :
  trunc (inject_Z a / inject_Z (Zpos p)) = Z.quot a (Zpos p).
Proof.
  unfold trunc, Qdiv, Qmult, Qinv, inject_Z. cbn.
  rewrite Z.mul_1_r. reflexivity.
Qed.

Lemma compute_hp_from_base_ge_1 (base_hp lv : Z) :
  1 <= compute_hp_from_base base_hp lv.
Proof. unfold compute_hp_from_base. apply Z.le_max_l. Qed.

Lemma stat_at_level_ge_1 (base lv : Z) : 1 <= stat_at_level base lv.
Proof. unfold stat_at_level. apply Z.le_max_l. Qed.

(** C3, as the spec states it, fails: the code yields 175 at base 100 and
    level 50, not 225. *)
Lemma hp_at_100_50_is_not_225 : compute_hp_from_base 100 50 <> 225.
Proof. vm_compute. discriminate. Qed.

(** C3 (amended): [compute_hp_from_base(100, 50)] is
    [max(1, int(231 * 50 / 100 + 50 + 10)) = max(1, int(115.5 + 60)) = 175]. *)
Theorem compute_hp_100_50 :
  compute_hp_from_base 100 50 = 175
  /\ compute_hp_from_base 100 50
     = Z.max 1 (trunc ((2 * 100 + 31) * 50 / 100 + 50 + 10)%Q)
  /\ ((2 * 100 + 31) * 50 / 100 + 50 + 10 == (231 # 2) + 60)%Q.
Proof. split; [|split]; vm_compute; reflexivity. Qed.

(** ** One action *)

Lemma calc_damage_ge_1 (lv power : Z) (attack defense modifier : Q) (g : Rng) :
  1 <= fst (calc_damage lv power attack defense modifier g).
Proof.
  unfold calc_damage. destruct (uniform (85 # 100) 1 g) as [rand g'].
  cbn. apply Z.le_max_l.
Qed.

Lemma Status_eqb_eq (a b : Status) : Status_eqb a b = true <-> a = b.
Proof.
  destruct a as [[]|], b as [[]|]; cbn; split; intro H;
    try reflexivity; try discriminate.
Qed.

Lemma status_after_new (old new : Status) :
  new <> None -> status_after old new = new.
Proof.
  destruct new as [st|]; [intros _ | congruence]. unfold status_after.
  destruct (Status_eqb (Some st) old) eqn:E; cbn; [|reflexivity].
  apply Status_eqb_eq in E. congruence.
Qed.

(** The shape of every action: the user's side is untouched; the action is
    either skipped by paralysis, or misses, or falls through after a
    damaging hit of at least 1 or a no-damage line, followed by the status
    attempt. *)
Lemma act_outcome (c : Setup) (actor : Actor) (s : BState) (g : Rng)
    (fl : Flow) (s' : BState) (g' : Rng) :
  act c actor s g = (fl, s', g') ->
  user_hp actor s' = user_hp actor s
  /\ user_status actor s' = user_status actor s
  /\ turn s' = turn s
  /\ exists evs, log s' = log s ++ evs
     /\ ((fl = Continue
          /\ (evs = [EvParalyzed (user_name c actor)]
              \/ evs = [EvMissed (user_name c actor) (m_name (move_of c actor))])
          /\ target_hp actor s' = target_hp actor s
          /\ target_status actor s' = target_status actor s)
         \/ (fl = Fallthrough
             /\ exists new,
                 target_status actor s' = status_after (target_status actor s) new
                 /\ ((exists dmg mult,
                       evs = EvUsed (user_name c actor) (m_name (move_of c actor)) dmg mult
                             :: status_events (target_name c actor) (target_status actor s) new
                       /\ 1 <= dmg
                       /\ target_hp actor s' = Z.max 0 (target_hp actor s - dmg))
                     \/ (evs = EvNoDamage (user_name c actor) (m_name (move_of c actor))
                               :: status_events (target_name c actor) (target_status actor s) new
                         /\ target_hp actor s' = target_hp actor s)))).
Proof.
  intros H. destruct actor; cbn [act] in H;
    [unfold act_attacker in H;
     destruct (paralysis_skip (atk_status s) g) as [skip g1]
    |unfold act_defender in H;
     destruct (paralysis_skip (def_status s) g) as [skip g1]].
  all: destruct skip;
    [inversion H; subst; cbn; repeat split; try reflexivity;
     eexists; split; [reflexivity|]; left; auto|].
  all: match type of H with context [hits ?a ?h] =>
         destruct (hits a h) as [hit g2] end.
  all: destruct hit; cbn [negb] in H;
    [|inversion H; subst; cbn; repeat split; try reflexivity;
      eexists; split; [reflexivity|]; left; auto].
  all: match type of H with context [0 <? ?p] => destruct (0 <? p) end.
  all: try (destruct (random g2) as [x gx];
            match type of H with context [calc_damage ?a ?b ?d ?e ?f ?h] =>
              pose proof (calc_damage_ge_1 a b d e f h) as Hd;
              destruct (calc_damage a b d e f h) as [dmg gd] end;
            cbn [fst] in Hd).
  all: match type of H with context [apply_status_chance ?m ?t ?h] =>
         destruct (apply_status_chance m t h) as [new g4] end.
  all: cbn [def_status atk_status log_append set_def_curr set_atk_curr] in H.
  all: destruct new as [st|];
    [match type of H with context [negb ?b] => destruct (negb b) eqn:E end|].
  all: inversion H; subst; clear H.
  all: cbn [user_hp user_status target_hp target_status user_name target_name
            move_of atk_curr def_curr atk_status def_status turn log
            log_append set_def_curr set_atk_curr set_def_status
            set_atk_status].
  all: repeat (split; [reflexivity|]).
  all: eexists; split; [rewrite <- ?app_assoc; reflexivity|]; right.
  all: split; [reflexivity|].
  all: first [exists (Some st) | exists None].
  all: unfold status_after, status_events; rewrite ?E.
  all: split; [reflexivity|].
  all: first [left; do 2 eexists; split; [reflexivity|]; split;
                [exact Hd | reflexivity]
             | right; split; reflexivity].
Qed.

(** Both branches of the actor loop, read through the side views. *)
Lemma act_inv (c : Setup) (actor : Actor) (s : BState) (g : Rng)
    (fl : Flow) (s' : BState) (g' : Rng) :
  act c actor s g = (fl, s', g') ->
  let move := move_of c actor in
  (paralysis_skip (user_status actor s) g = (true, g')
   /\ fl = Continue
   /\ s' = log_append s (EvParalyzed (user_name c actor)))
  \/ (exists g1,
        paralysis_skip (user_status actor s) g = (false, g1)
        /\ hits (m_accuracy move) g1 = (false, g')
        /\ fl = Continue
        /\ s' = log_append s (EvMissed (user_name c actor) (m_name move)))
  \/ (exists g1 g2 s3 g3,
        paralysis_skip (user_status actor s) g = (false, g1)
        /\ hits (m_accuracy move) g1 = (true, g2)
        /\ fl = Fallthrough
        /\ ((0 < py_or (m_power move) 0
             /\ exists dmg mult,
                 1 <= dmg
                 /\ s3 = log_append
                           (set_target_hp actor s
                              (Z.max 0 (target_hp actor s - dmg)))
                           (EvUsed (user_name c actor) (m_name move) dmg mult))
            \/ (py_or (m_power move) 0 <= 0
                /\ g3 = g2
                /\ s3 = log_append s
                          (EvNoDamage (user_name c actor) (m_name move))))
        /\ s' = after_status c actor s3
                  (fst (apply_status_chance move (target_status actor s) g3))
        /\ g' = snd (apply_status_chance move (target_status actor s) g3)).
Proof.
  intros H. cbv zeta.
  destruct actor; cbn [act] in H;
    [unfold act_attacker in H | unfold act_defender in H];
    cbn [user_status user_name target_name move_of target_hp target_status
         set_target_hp set_target_status].
  all: match type of H with context [paralysis_skip ?a ?h] =>
         destruct (paralysis_skip a h) as [skip g1] eqn:Hskip end.
  all: destruct skip; [inversion H; subst; left; auto|].
  all: right.
  all: match type of H with context [hits ?a ?h] =>
         destruct (hits a h) as [hit g2] eqn:Hhit end.
  all: destruct hit; cbn [negb] in H;
    [|inversion H; subst; left; exists g1; auto].
  all: right; exists g1, g2.
  all: match type of H with context [0 <? ?p] =>
         destruct (0 <? p) eqn:Hpow end.
  all: try (destruct (random g2) as [x gx];
            match type of H with context [calc_damage ?a ?b ?d ?e ?f ?h] =>
              pose proof (calc_damage_ge_1 a b d e f h) as Hd;
              destruct (calc_damage a b d e f h) as [dmg gd] end;
            cbn [fst] in Hd).
  all: cbn [def_status atk_status log_append set_def_curr set_atk_curr] in H.
  all: match type of H with context [apply_status_chance ?m ?t ?h] =>
         destruct (apply_status_chance m t h) as [new g4] eqn:Hnew;
         eexists; exists h
       end.
  all: split; [first [reflexivity | exact Hskip]|];
    split; [first [reflexivity | exact Hhit]|].
  all: split; [destruct new as [?|]; [destruct (negb _)|]; congruence|].
  all: split;
    [first [ left; split; [apply Z.ltb_lt; exact Hpow|];
             do 2 eexists; split; [exact Hd | reflexivity]
           | right; split; [apply Z.ltb_ge; exact Hpow|];
             split; reflexivity ]|].
  all: rewrite Hnew; cbn [fst snd]; unfold after_status;
    cbn [target_status log_append set_def_curr set_atk_curr atk_status
         def_status set_target_status].
  all: destruct new as [st|];
    [match type of H with context [negb ?b] => destruct (negb b) end|].
  all: inversion H; subst; clear H.
  all: split; reflexivity.
Qed.

(** ** Accuracy *)

Lemma hits_none (g : Rng) : hits None g = (true, g).
Proof. reflexivity. Qed.

Lemma hits_some (a : Z) (g : Rng) :
  hits (Some a) g
  = (fst (randint 1 100 g) <=? Z.max 1 a, snd (randint 1 100 g)).
Proof. unfold hits. destruct (randint 1 100 g) as [r g']. reflexivity. Qed.

Lemma act_miss (c : Setup) (actor : Actor) (s : BState) (g g1 g2 : Rng) :
  paralysis_skip (user_status actor s) g = (false, g1) ->
  hits (m_accuracy (move_of c actor)) g1 = (false, g2) ->
  act c actor s g
  = (Continue,
     log_append s (EvMissed (user_name c actor) (m_name (move_of c actor))),
     g2).
Proof.
  intros Hp Hh. destruct actor; cbn in *.
  - unfold act_attacker. rewrite Hp, Hh. reflexivity.
  - unfold act_defender. rewrite Hp, Hh. reflexivity.
Qed.

(** C6: a move without accuracy hits for every generator state, drawing
    nothing; otherwise the move hits exactly when the integer drawn from
    [1,100] is at most [max(1, accuracy)]; when the check fails the action
    ends with the miss line only: both HPs and both statuses are unchanged. *)
Theorem hits_accuracy_check :
  (forall g, hits None g = (true, g))
  /\ (forall a g,
        1 <= fst (randint 1 100 g) <= 100
        /\ snd (hits (Some a) g) = snd (randint 1 100 g)
        /\ (fst (hits (Some a) g) = true
            <-> fst (randint 1 100 g) <= Z.max 1 a))
  /\ (forall c actor s g g1 g2,
        paralysis_skip (user_status actor s) g = (false, g1) ->
        hits (m_accuracy (move_of c actor)) g1 = (false, g2) ->
        exists s',
          act c actor s g = (Continue, s', g2)
          /\ atk_curr s' = atk_curr s /\ def_curr s' = def_curr s
          /\ atk_status s' = atk_status s /\ def_status s' = def_status s
          /\ log s'
             = log s ++ [EvMissed (user_name c actor)
                                  (m_name (move_of c actor))]).
Proof.
  split; [exact hits_none|]. split.
  - intros a g. split; [apply randint_1_100|].
    rewrite hits_some. cbn [fst snd]. split; [reflexivity|].
    apply Z.leb_le.
  - intros c actor s g g1 g2 Hp Hh. eexists. split.
    + eapply act_miss; eassumption.
    + cbn. repeat split; reflexivity.
Qed.

(** ** Status application *)

(** C7: with no detectable status the target's status is returned and
    nothing is drawn; with a detected status [st], the result is [st] when
    the effect chance is present, positive and the integer drawn from
    [1,100] is at most the chance, whatever the target's status was, and
    the target's status in every other case. *)
Theorem apply_status_chance_spec (move : Move) (target_status : Status)
    (g : Rng) :
  (detect_status_from_move move = None ->
   apply_status_chance move target_status g = (target_status, g))
  /\ (forall st, detect_status_from_move move = Some st ->
        1 <= fst (randint 1 100 g) <= 100
        /\ (forall ch, m_effect_chance move = Some ch -> 0 < ch ->
              fst (randint 1 100 g) <= ch ->
              fst (apply_status_chance move target_status g) = Some st)
        /\ (forall ch, m_effect_chance move = Some ch -> 0 < ch ->
              ch < fst (randint 1 100 g) ->
              fst (apply_status_chance move target_status g) = target_status)
        /\ (forall ch, m_effect_chance move = Some ch -> ch <= 0 ->
              apply_status_chance move target_status g = (target_status, g))
        /\ (m_effect_chance move = None ->
              apply_status_chance move target_status g = (target_status, g))).
Proof.
  unfold apply_status_chance. split.
  - intros ->. reflexivity.
  - intros st ->. split; [apply randint_1_100|].
    destruct (randint 1 100 g) as [r g'] eqn:Hr. cbn [fst].
    repeat split.
    + intros ch -> Hpos Hle. unfold py_or.
      destruct (ch =? 0) eqn:E0; [lia|].
      destruct (0 <? ch) eqn:E1; [|lia].
      destruct (r <=? ch) eqn:E2; [reflexivity | lia].
    + intros ch -> Hpos Hlt. unfold py_or.
      destruct (ch =? 0) eqn:E0; [lia|].
      destruct (0 <? ch) eqn:E1; [|lia].
      destruct (r <=? ch) eqn:E2; [lia | reflexivity].
    + intros ch -> Hle. unfold py_or.
      destruct (ch =? 0) eqn:E0; [reflexivity|].
      destruct (0 <? ch) eqn:E1; [lia | reflexivity].
    + intros ->. reflexivity.
Qed.

(** ** [calc_damage] as Python evaluates it *)

Section binary64_facts.
Import SpecFloat Binary64.































End binary64_facts.

Section binary64_range.
Import SpecFloat Binary64.















End binary64_range.

Section binary64_ops.
Import SpecFloat Binary64.
























End binary64_ops.

(** ** A damaging hit *)





(** ** HP through the loop *)

Lemma apply_eot_hp (name : string) (status : Status) (curr_hp max_hp : Z)
    (lg : list Event) :
  0 <= curr_hp ->
  0 <= fst (apply_eot name status curr_hp max_hp lg) <= curr_hp.
Proof. intros H. destruct status as [[]|]; cbn; lia. Qed.

Lemma step_hp (c : Setup) (p q : BState * Rng) :
  step c p q -> hp_nonneg (fst p) -> hp_nonneg (fst q) /\ hp_le (fst q) (fst p).
Proof.
  intros Hstep [Ha Hd].
  destruct Hstep as [s g | actor s g fl s' g' Hact | s g | s g];
    cbn [fst] in *; unfold hp_nonneg, hp_le.
  - cbn. lia.
  - destruct (act_outcome _ _ _ _ _ _ _ Hact) as (Hu & _ & _ & evs & _ & Hc).
    assert (Ht : 0 <= target_hp actor s' <= target_hp actor s).
    { destruct Hc as [(_ & _ & -> & _) | (_ & new & _ & Hhit)].
      - destruct actor; cbn; lia.
      - destruct Hhit as [(dmg & mult & _ & Hdmg & ->) | (_ & ->)];
          destruct actor; cbn; lia. }
    destruct actor; cbn in Hu, Ht; lia.
  - unfold eot_attacker.
    pose proof (apply_eot_hp (p_name (attacker_data c)) (atk_status s)
                  (atk_curr s) (atk_hp c) (log s) Ha) as Hh.
    destruct (apply_eot _ _ _ _ _) as [hp lg]. cbn in *. lia.
  - unfold eot_defender.
    pose proof (apply_eot_hp (p_name (defender_data c)) (def_status s)
                  (def_curr s) (def_hp c) (log s) Hd) as Hh.
    destruct (apply_eot _ _ _ _ _) as [hp lg]. cbn in *. lia.
Qed.

Lemma steps_hp (c : Setup) (p q : BState * Rng) :
  rtc (step c) p q -> hp_nonneg (fst p) ->
  hp_nonneg (fst q) /\ hp_le (fst q) (fst p).
Proof.
  induction 1 as [p | p m q Hpm Hmq IH]; intros Hp.
  - split; [assumption | unfold hp_le; lia].
  - destruct (step_hp _ _ _ Hpm Hp) as [Hm Hle].
    destruct (IH Hm) as [Hq Hle']. split; [assumption|].
    unfold hp_le in *. lia.
Qed.

(** The loop only ever moves along [step]. *)
Lemma for_actors_steps (c : Setup) (actors : list Actor) (s : BState)
    (g : Rng) :
  rtc (step c) (s, g) (for_actors c actors s g).
Proof.
  revert s g. induction actors as [|actor rest IH]; intros s g; cbn.
  - apply rtc_refl.
  - destruct (fainted s); [apply rtc_refl|].
    destruct (act c actor s g) as [[fl s'] g'] eqn:Hact.
    assert (Hs : step c (s, g) (s', g')) by (eapply step_act; eassumption).
    destruct fl.
    + eapply rtc_l; [exact Hs | apply IH].
    + destruct (fainted s').
      * apply rtc_once. exact Hs.
      * eapply rtc_l; [exact Hs | apply IH].
Qed.

Lemma turn_actions_steps (c : Setup) (s : BState) (g : Rng) :
  rtc (step c) (s, g) (turn_actions c s g).
Proof.
  unfold turn_actions. eapply rtc_l; [apply step_header|].
  apply for_actors_steps.
Qed.

Lemma turn_body_steps (c : Setup) (s : BState) (g : Rng) :
  rtc (step c) (s, g) (turn_body c s g).
Proof.
  unfold turn_body. pose proof (turn_actions_steps c s g) as H.
  destruct (turn_actions c s g) as [s3 g3].
  etrans; [exact H|].
  eapply rtc_l; [apply step_eot_attacker|].
  apply rtc_once. apply step_eot_defender.
Qed.

Lemma run_loop_steps (fuel : nat) (c : Setup) (s : BState) (g : Rng) :
  rtc (step c) (s, g) (run_loop fuel c s g).
Proof.
  revert s g. induction fuel as [|n IH]; intros s g; cbn.
  - apply rtc_refl.
  - destruct (loop_cond c s); [|apply rtc_refl].
    pose proof (turn_body_steps c s g) as H.
    destruct (turn_body c s g) as [s' g'].
    destruct (fainted s'); [exact H|].
    etrans; [exact H | apply IH].
Qed.

Lemma setup_facts (w : World) (cached : option Chart) (r : BattleRequest)
    (c : Setup) :
  setup w cached r = Some c ->
  req c = r /\ 1 <= atk_hp c /\ 1 <= def_hp c
  /\ get_pokemon_data w (attacker r) = Some (attacker_data c)
  /\ get_pokemon_data w (defender r) = Some (defender_data c)
  /\ select_move w (attacker_data c) (attacker_moves r) = Some (atk_move c)
  /\ select_move w (defender_data c) (defender_moves r) = Some (def_move c).
Proof.
  unfold setup. intros H.
  destruct (get_pokemon_data w (attacker r)) as [a|]; [|discriminate].
  destruct (get_pokemon_data w (defender r)) as [d|]; [|discriminate].
  destruct (build_type_chart w cached) as [chart|]; [|discriminate].
  destruct (select_move w a (attacker_moves r)) as [am|] eqn:Ea; [|discriminate].
  destruct (select_move w d (defender_moves r)) as [dm|] eqn:Ed; [|discriminate].
  inversion H; subst; clear H. cbn.
  repeat split; auto using compute_hp_from_base_ge_1.
Qed.

(** C9: in every simulation, at every point [p] the loop can reach from
    its initial state both current HPs lie between 0 and the side's max HP,
    and at every later point [q] neither HP is larger than at [p]; the
    state after any number of loop iterations is such a point. *)
Theorem hp_bounded_and_non_increasing (w : World) (cached : option Chart)
    (r : BattleRequest) (c : Setup) (g : Rng) :
  setup w cached r = Some c ->
  (forall p q,
      rtc (step c) (initial_state c, g) p -> rtc (step c) p q ->
      hp_bounded c (fst p) /\ hp_le (fst q) (fst p))
  /\ (forall fuel,
        rtc (step c) (initial_state c, g)
            (run_loop fuel c (initial_state c) g)).
Proof.
  intros Hsetup.
  destruct (setup_facts _ _ _ _ Hsetup) as (_ & Ha & Hd & _).
  split; [|intros fuel; apply run_loop_steps].
  intros p q Hp Hq.
  assert (H0 : hp_nonneg (fst (initial_state c, g))) by (cbn; split; cbn; lia).
  destruct (steps_hp _ _ _ Hp H0) as [Hnn Hle].
  destruct (steps_hp _ _ _ Hq Hnn) as [_ Hle'].
  split; [|exact Hle'].
  unfold hp_bounded, hp_nonneg, hp_le in *. cbn in Hle. lia.
Qed.

(** ** Turn counting and termination *)

Lemma step_turn (c : Setup) (p q : BState * Rng) :
  step c p q -> turn (fst q) = turn (fst p) \/ turn (fst q) = turn (fst p) + 1.
Proof.
  intros [s g | actor s g fl s' g' Hact | s g | s g]; cbn [fst].
  - right. reflexivity.
  - left. apply (act_outcome _ _ _ _ _ _ _ Hact).
  - left. unfold eot_attacker. destruct (apply_eot _ _ _ _ _). reflexivity.
  - left. unfold eot_defender. destruct (apply_eot _ _ _ _ _). reflexivity.
Qed.

Lemma for_actors_turn (c : Setup) (actors : list Actor) (s : BState)
    (g : Rng) :
  turn (fst (for_actors c actors s g)) = turn s.
Proof.
  revert s g. induction actors as [|actor rest IH]; intros s g; cbn.
  - reflexivity.
  - destruct (fainted s); [reflexivity|].
    destruct (act c actor s g) as [[fl s'] g'] eqn:Hact.
    assert (Ht : turn s' = turn s) by apply (act_outcome _ _ _ _ _ _ _ Hact).
    destruct fl; [|destruct (fainted s'); [exact Ht|]];
      rewrite IH; exact Ht.
Qed.

Lemma turn_body_turn (c : Setup) (s : BState) (g : Rng) :
  turn (fst (turn_body c s g)) = turn s + 1.
Proof.
  unfold turn_body, turn_actions.
  match goal with |- context [for_actors ?c ?a ?s ?g] =>
    pose proof (for_actors_turn c a s g) as H;
    destruct (for_actors c a s g) as [s3 g3] end.
  cbn in H. cbn [fst]. unfold eot_defender, eot_attacker.
  repeat (destruct (apply_eot _ _ _ _ _); cbn). exact H.
Qed.



Lemma run_loop_turn_bound (fuel : nat) (c : Setup) (s : BState) (g : Rng) :
  turn s <= turn (fst (run_loop fuel c s g))
            <= Z.max (turn s) (py_or (max_turns (req c)) 200).
Proof.
  revert s g. induction fuel as [|n IH]; intros s g; cbn.
  - lia.
  - destruct (loop_cond c s) eqn:Hc; [|cbn; lia].
    pose proof (turn_body_turn c s g) as Ht.
    destruct (turn_body c s g) as [s' g']. cbn [fst] in Ht.
    unfold loop_cond in Hc. apply andb_true_iff in Hc. destruct Hc as [Hc _].
    apply andb_true_iff in Hc. destruct Hc as [Hc _]. apply Z.ltb_lt in Hc.
    destruct (fainted s'); [cbn; lia|].
    specialize (IH s' g'). lia.
Qed.

(** The number of turns of an outcome never exceeds [max_turns or 200]:
    the supplied value when it is non-zero, 200 when it is 0 or absent. *)
Lemma simulate_battle_turns_bound (w : World) (cached : option Chart)
    (g0 : Rng) (r : BattleRequest) (o : BattleOutcome) :
  simulate_battle w cached g0 r = Some o ->
  0 <= turns o <= Z.max 0 (py_or (max_turns r) 200).
Proof.
  unfold simulate_battle. destruct (setup w cached r) as [c|] eqn:Hs; [|discriminate].
  destruct (setup_facts _ _ _ _ Hs) as (Hreq & _).
  match goal with |- context [run_loop ?f ?c ?s ?g] =>
    pose proof (run_loop_turn_bound f c s g) as Hb;
    destruct (run_loop f c s g) as [s' g'] end.
  intros H. inversion H; subst; clear H. cbn in *. exact Hb.
Qed.


(** C1: at [max_turns = 0] the claim asks for no turn, a draw and an empty
    log; the code reads the limit as [max_turns or 200], so the request
    below runs six turns to a win and returns a log of seventeen lines. *)
Theorem max_turns_zero_runs_turns (g0 : Rng) :
  max_turns Fixture.zero_turns_request
  = Some 0
  /\ exists o,
      simulate_battle Fixture.world None g0
        Fixture.zero_turns_request
      = Some o
      /\ turns o = 6 /\ winner o = Some "charmander"%string
      /\ length (out_log o) = 17%nat.
Proof.
  split; [reflexivity|]. eexists. split; [vm_compute; reflexivity|].
  repeat split.
Qed.

(** ** Determinism *)

(** C2: when the request carries a seed, the outcome (winner, turn count
    and log) is the same whatever state the global generator was in: two
    runs with the same seed, creatures, moves, level, [max_turns] and
    upstream data return equal outcomes. *)
Theorem simulate_battle_seeded_deterministic (w : World)
    (cached : option Chart) (r : BattleRequest) (sd : Z) (g1 g2 : Rng) :
  random_seed r = Some sd ->
  simulate_battle w cached g1 r = simulate_battle w cached g2 r.
Proof. intros H. unfold simulate_battle. rewrite H. reflexivity. Qed.

(** Without a seed the outcome does depend on the generator state. *)
Example unseeded_runs_differ :
  simulate_battle Fixture.world None Fixture.idle_rng
    (Fixture.request "Charmander" "Bulbasaur" None None (Some 1) None)
  <> simulate_battle Fixture.world None (mkRng (Fixture.stream 3) 0)
       (Fixture.request "Charmander" "Bulbasaur" None None (Some 1) None).
Proof. vm_compute. discriminate. Qed.

(** ** End-of-turn ticks *)

Lemma apply_eot_floor (name : string) (status : Status) (curr_hp max_hp : Z)
    (lg : list Event) :
  0 <= max_hp ->
  apply_eot name status curr_hp max_hp lg
  = (after_tick status curr_hp max_hp, lg ++ eot_events name status max_hp).
Proof.
  intros H. unfold apply_eot, after_tick, eot_damage, eot_events.
  destruct status as [[]|]; rewrite ?app_nil_r; try reflexivity;
    rewrite trunc_inject_div, Z.quot_div_nonneg by lia; reflexivity.
Qed.

Lemma after_tick_zero (status : Status) (max_hp : Z) :
  after_tick status 0 max_hp = 0.
Proof. unfold after_tick, eot_damage. destruct status as [[]|]; lia. Qed.

(** C4, as the spec states it, fails: the defender's first hit takes the
    attacker to 0 HP and burns it, and the end of that turn still logs the
    attacker's burn tick. *)
Lemma eot_tick_logged_for_fainted_side :
  match setup Fixture.world None
          Fixture.burn_request with
  | Some c =>
      let s3 := fst (turn_actions c (initial_state c) (seed Fixture.world 1)) in
      atk_curr s3 = 0
      /\ atk_status s3 = Some BURN
      /\ log (eot_attacker c s3) = log s3 ++ [EvBurn "bulbasaur" 7]
  | None => False
  end
  /\ simulate_battle Fixture.world None Fixture.idle_rng
       Fixture.burn_request
     = Some (mkOutcome (Some "charmander"%string) 1
               [EvTurn 1; EvUsed "charmander" "scorch" 342 2;
                EvStatus "bulbasaur" BURN; EvBurn "bulbasaur" 7]).
Proof. vm_compute. repeat split. Qed.

(** C4 (amended): at the end of every turn each side, whatever its current
    HP, loses [max(1, floor(maxHP/16))] when burned and
    [max(1, floor(maxHP/8))] when poisoned, floored at 0, and one tick line
    is logged for it, the attacker's first; a side at 0 HP stays at 0. *)
Theorem end_of_turn_ticks (w : World) (cached : option Chart)
    (r : BattleRequest) (c : Setup) (s : BState) (g : Rng) :
  setup w cached r = Some c ->
  let s3 := fst (turn_actions c s g) in
  let s' := fst (turn_body c s g) in
  atk_curr s' = after_tick (atk_status s3) (atk_curr s3) (atk_hp c)
  /\ def_curr s' = after_tick (def_status s3) (def_curr s3) (def_hp c)
  /\ log s' = log s3
              ++ eot_events (p_name (attacker_data c)) (atk_status s3) (atk_hp c)
              ++ eot_events (p_name (defender_data c)) (def_status s3) (def_hp c)
  /\ atk_status s' = atk_status s3 /\ def_status s' = def_status s3
  /\ (atk_curr s3 = 0 -> atk_curr s' = 0)
  /\ (def_curr s3 = 0 -> def_curr s' = 0).
Proof.
  intros Hsetup.
  destruct (setup_facts _ _ _ _ Hsetup) as (_ & Ha & Hd & _).
  unfold turn_body. destruct (turn_actions c s g) as [s3 g3]. cbn [fst].
  unfold eot_defender, eot_attacker.
  rewrite apply_eot_floor by lia. cbn [log def_status def_curr set_log set_atk_curr].
  rewrite apply_eot_floor by lia. cbn. rewrite <- app_assoc.
  repeat split; try reflexivity.
  - intros ->. apply after_tick_zero.
  - intros ->. apply after_tick_zero.
Qed.

(** ** Move selection *)

Lemma insert_desc_not_nil (x : Move) (l : list Move) : insert_desc x l <> [].
Proof. destruct l as [|y r]; cbn; [|destruct (_ <? _)]; discriminate. Qed.

Lemma sort_desc_nil (l : list Move) : sort_desc l = [] -> l = [].
Proof.
  destruct l as [|x r]; [reflexivity|]. cbn. intros H.
  exfalso. exact (insert_desc_not_nil _ _ H).
Qed.

(** The head of the stable descending sort is the first element of maximal
    key. *)
Lemma sort_desc_head (l : list Move) (best : Move) (rest : list Move) :
  sort_desc l = best :: rest ->
  exists before after,
    l = before ++ best :: after
    /\ Forall (fun x => power_key x < power_key best) before
    /\ Forall (fun x => power_key x <= power_key best) after.
Proof.
  revert best rest. induction l as [|x r IH]; intros best rest H; [discriminate|].
  cbn in H. destruct (sort_desc r) as [|y r'] eqn:Hs.
  - apply sort_desc_nil in Hs. subst r. cbn in H. inversion H; subst.
    exists [], []. repeat split; constructor.
  - destruct (IH y r' eq_refl) as (l1 & l2 & Hr & H1 & H2).
    cbn in H. destruct (power_key x <? power_key y) eqn:E.
    + inversion H; subst best rest. apply Z.ltb_lt in E.
      exists (x :: l1), l2. subst r. repeat split; [|assumption].
      constructor; assumption.
    + inversion H; subst best rest. apply Z.ltb_ge in E.
      exists [], r. repeat split; [constructor|].
      subst r. apply Forall_app. split.
      * eapply Forall_impl; [exact H1|]. cbn. intros; lia.
      * constructor; [exact E|].
        eapply Forall_impl; [exact H2|]. cbn. intros; lia.
Qed.

Lemma truthy_positive (md : Move) :
  0 <= power_of md -> truthy (m_power md) = (0 <? power_of md).
Proof.
  unfold power_of, truthy. destruct (m_power md) as [p|]; cbn; [|reflexivity].
  intros H. destruct (p =? 0) eqn:E0, (0 <? p) eqn:E1; cbn; lia.
Qed.

Lemma scan_candidates_spec (w : World) (mvs : list MoveRef) :
  forallb (fun md => 0 <=? power_of md) (loaded_moves w mvs) = true ->
  scan_candidates w mvs = List.filter qualifies (loaded_moves w mvs).
Proof.
  unfold loaded_moves. induction mvs as [|mv rest IH]; cbn; [reflexivity|].
  destruct (get_move_data w (mr_name mv)) as [md|]; cbn; [|exact IH].
  intros H. apply andb_true_iff in H. destruct H as [Hmd Hrest].
  apply Z.leb_le in Hmd. unfold qualifies at 1.
  rewrite <- (truthy_positive md Hmd), (IH Hrest). reflexivity.
Qed.

Lemma qualifies_power_key (md : Move) :
  qualifies md = true -> power_key md = power_of md.
Proof.
  unfold qualifies, power_key, power_of, py_or. intros H.
  apply andb_true_iff in H. destruct H as [H _]. apply Z.ltb_lt in H.
  destruct (m_power md) as [p|]; cbn in *; [|lia].
  destruct (p =? 0) eqn:E; lia.
Qed.

(** C5, as the spec states it, fails twice. A move of power -10 passes the
    truthiness test of the scan: it is kept and returned although no
    candidate has positive power, where the claim asks for struggle. And
    for a creature without type and without candidate the struggle
    fallback reads [poke['types'][0]] and raises. *)
Lemma select_move_negative_power_and_typeless :
  (spec_candidates Cases.odd_world Cases.odd = []
   /\ select_move Cases.odd_world Cases.odd None = Some Cases.recoil
   /\ m_power Cases.recoil = Some (-10)
   /\ Cases.recoil <> struggle "normal")
  /\ (spec_candidates Fixture.world Cases.typeless = []
      /\ select_move Fixture.world Cases.typeless None = None).
Proof. repeat split; try reflexivity. discriminate. Qed.

(** C5 (amended): with no explicit move list, over upstream data whose
    powers are not negative, [select_move] scans at most the first 40
    known moves; the candidates are the moves that load among them with
    positive power and class physical or special; when there is one, the
    result is a candidate of highest power, every candidate met before it
    having strictly lower power; when there is none, the result is the
    synthetic struggle (power 50, accuracy 100, the creature's first type,
    physical, no effect text, no effect chance); the call raises exactly
    when there is no candidate and the creature has no type. *)
Theorem select_move_fallback (w : World) (poke : Pokemon)
    (provided : option (list string)) :
  provided = None \/ provided = Some [] ->
  forallb (fun md => 0 <=? power_of md)
          (loaded_moves w (firstn 40 (p_moves poke))) = true ->
  (length (firstn 40 (p_moves poke)) <= 40)%nat
  /\ (spec_candidates w poke = [] ->
      select_move w poke provided
      = match p_types poke with
        | ty :: _ =>
            Some (mkMove "struggle" (Some 50) (Some 100) ty
                         (Some "physical"%string) [] None)
        | [] => None
        end)
  /\ (spec_candidates w poke <> [] ->
      exists best before after,
        select_move w poke provided = Some best
        /\ spec_candidates w poke = before ++ best :: after
        /\ Forall (fun x => power_of x < power_of best) before
        /\ Forall (fun x => power_of x <= power_of best) after)
  /\ (select_move w poke provided = None <->
      spec_candidates w poke = [] /\ p_types poke = []).
Proof.
  intros Hprov Hpow.
  assert (Hsel : select_move w poke provided
                 = match sort_desc (spec_candidates w poke) with
                   | best :: _ => Some best
                   | [] => match p_types poke with
                           | ty :: _ => Some (struggle ty)
                           | [] => None
                           end
                   end).
  { unfold select_move, spec_candidates.
    rewrite (scan_candidates_spec _ _ Hpow).
    destruct Hprov as [-> | ->]; reflexivity. }
  split; [apply firstn_le_length|].
  split; [|split].
  - intros Hnil. rewrite Hsel, Hnil. reflexivity.
  - intros Hne. rewrite Hsel.
    destruct (sort_desc (spec_candidates w poke)) as [|best rest] eqn:Hs.
    + apply sort_desc_nil in Hs. contradiction.
    + destruct (sort_desc_head _ _ _ Hs) as (l1 & l2 & Hl & H1 & H2).
      exists best, l1, l2. split; [reflexivity|]. split; [exact Hl|].
      assert (Hq : Forall (fun x => qualifies x = true)
                          (spec_candidates w poke)).
      { unfold spec_candidates. apply List.Forall_forall. intros x Hx.
        apply List.filter_In in Hx. apply Hx. }
      rewrite Hl in Hq. apply Forall_app in Hq. destruct Hq as [Hq1 Hq2].
      apply Forall_cons in Hq2. destruct Hq2 as [Hb Hq2].
      rewrite <- (qualifies_power_key best Hb). split.
      * rewrite Forall_forall in *. intros x Hx.
        rewrite <- (qualifies_power_key x (Hq1 x Hx)). apply H1, Hx.
      * rewrite Forall_forall in *. intros x Hx.
        rewrite <- (qualifies_power_key x (Hq2 x Hx)). apply H2, Hx.
  - rewrite Hsel.
    destruct (sort_desc (spec_candidates w poke)) as [|best rest] eqn:Hs.
    + apply sort_desc_nil in Hs. rewrite Hs.
      destruct (p_types poke) as [|ty tys].
      * split; auto.
      * split; [intros H; discriminate H | intros [_ H]; discriminate H].
    + split; [intros H; discriminate H|].
      intros [H _]. rewrite H in Hs. discriminate Hs.
Qed.

(** ** The type chart *)

Lemma set_all_snoc (ds : list string) (d : string) (v : Q)
    (row : gmap string Q) :
  set_all (ds ++ [d]) v row = <[d := v]> (set_all ds v row).
Proof. unfold set_all. rewrite foldl_app. reflexivity. Qed.

Lemma lookup_set_all (ds : list string) (v : Q) (row : gmap string Q)
    (d : string) :
  set_all ds v row !! d = if bool_decide (d ∈ ds) then Some v else row !! d.
Proof.
  induction ds as [|x ds IH] using rev_ind.
  - cbn. reflexivity.
  - rewrite set_all_snoc. destruct (decide (x = d)) as [-> | Hne].
    + rewrite lookup_insert_eq. rewrite bool_decide_eq_true_2; [reflexivity|].
      apply elem_of_app. right. apply list_elem_of_singleton. reflexivity.
    + rewrite lookup_insert_ne by exact Hne. rewrite IH.
      destruct (decide (d ∈ ds)) as [Hin | Hnin].
      * rewrite !bool_decide_eq_true_2; [reflexivity | | exact Hin].
        apply elem_of_app. left. exact Hin.
      * rewrite !bool_decide_eq_false_2; [reflexivity | | exact Hnin].
        intros [H | H]%elem_of_app; [contradiction|].
        apply list_elem_of_singleton in H. congruence.
Qed.

Lemma set_all_values (ds : list string) (v : Q) (row : gmap string Q) :
  chart_value v -> row_values row -> row_values (set_all ds v row).
Proof.
  intros Hv Hrow d u. rewrite lookup_set_all.
  destruct (bool_decide (d ∈ ds)); [intros [= <-]; exact Hv | apply Hrow].
Qed.

Lemma chart_step_loaded (w : World) (types_list : list TypeRef)
    (chart : Chart) (t : TypeRef) (tdata : TypeData) :
  upstream_type w (t_url t) = Some tdata ->
  chart_step w types_list chart t
  = <[td_name tdata :=
        built_row types_list tdata (default ∅ (chart !! td_name tdata))]> chart.
Proof. intros H. unfold chart_step. rewrite H. reflexivity. Qed.

Lemma built_row_values (types_list : list TypeRef) (tdata : TypeData)
    (row0 : gmap string Q) :
  row_values row0 -> row_values (built_row types_list tdata row0).
Proof.
  intros H. unfold built_row.
  repeat apply set_all_values; unfold chart_value; auto.
Qed.

Lemma built_row_defending (types_list : list TypeRef) (tdata : TypeData)
    (row0 : gmap string Q) (d : string) :
  d ∈ map t_name types_list -> is_Some (built_row types_list tdata row0 !! d).
Proof.
  intros Hd. unfold built_row. rewrite !lookup_set_all.
  rewrite (bool_decide_eq_true_2 (d ∈ map t_name types_list)) by exact Hd.
  repeat (destruct (bool_decide _)); eexists; reflexivity.
Qed.

Lemma built_row_neutral (types_list : list TypeRef) (tdata : TypeData)
    (row0 : gmap string Q) (d : string) :
  d ∈ map t_name types_list ->
  d ∉ double_damage_to tdata -> d ∉ half_damage_to tdata ->
  d ∉ no_damage_to tdata ->
  built_row types_list tdata row0 !! d = Some 1%Q.
Proof.
  intros Hd H2 Hh H0. unfold built_row. rewrite !lookup_set_all.
  rewrite (bool_decide_eq_false_2 (d ∈ no_damage_to tdata)) by exact H0.
  rewrite (bool_decide_eq_false_2 (d ∈ half_damage_to tdata)) by exact Hh.
  rewrite (bool_decide_eq_false_2 (d ∈ double_damage_to tdata)) by exact H2.
  rewrite (bool_decide_eq_true_2 (d ∈ map t_name types_list)) by exact Hd.
  reflexivity.
Qed.

Section chart_fold.
Variable w : World.
Variable types_list : list TypeRef.

Lemma chart_step_values (chart : Chart) (t : TypeRef) :
  chart_values chart -> chart_values (chart_step w types_list chart t).
Proof.
  intros H. destruct (upstream_type w (t_url t)) as [tdata|] eqn:E.
  - rewrite (chart_step_loaded _ _ _ _ _ E). intros a row.
    destruct (decide (td_name tdata = a)) as [-> | Hne].
    + rewrite lookup_insert_eq. intros [= <-]. apply built_row_values.
      destruct (chart !! a) as [row0|] eqn:Ea; cbn.
      * eapply H. exact Ea.
      * intros d v. rewrite lookup_empty. discriminate.
    + rewrite lookup_insert_ne by exact Hne. apply H.
  - unfold chart_step. rewrite E. exact H.
Qed.

Lemma chart_step_complete (chart : Chart) (t : TypeRef) :
  rows_complete types_list chart ->
  rows_complete types_list (chart_step w types_list chart t).
Proof.
  intros H. destruct (upstream_type w (t_url t)) as [tdata|] eqn:E.
  - rewrite (chart_step_loaded _ _ _ _ _ E). intros a row d.
    destruct (decide (td_name tdata = a)) as [-> | Hne].
    + rewrite lookup_insert_eq. intros [= <-]. apply built_row_defending.
    + rewrite lookup_insert_ne by exact Hne. apply H.
  - unfold chart_step. rewrite E. exact H.
Qed.

Lemma chart_step_keeps_key (chart : Chart) (t : TypeRef) (a : string) :
  is_Some (chart !! a) -> is_Some (chart_step w types_list chart t !! a).
Proof.
  intros H. unfold chart_step.
  destruct (upstream_type w (t_url t)) as [tdata|]; [|exact H].
  cbn. destruct (decide (td_name tdata = a)) as [-> | Hne].
  - rewrite lookup_insert_eq. eexists; reflexivity.
  - rewrite lookup_insert_ne by exact Hne. exact H.
Qed.

Lemma fold_values (l : list TypeRef) (chart : Chart) :
  chart_values chart -> chart_values (foldl (chart_step w types_list) chart l).
Proof.
  revert chart. induction l as [|t l IH]; intros chart H; cbn; [exact H|].
  apply IH, chart_step_values, H.
Qed.

Lemma fold_complete (l : list TypeRef) (chart : Chart) :
  rows_complete types_list chart ->
  rows_complete types_list (foldl (chart_step w types_list) chart l).
Proof.
  revert chart. induction l as [|t l IH]; intros chart H; cbn; [exact H|].
  apply IH, chart_step_complete, H.
Qed.

Lemma fold_keeps_key (l : list TypeRef) (chart : Chart) (a : string) :
  is_Some (chart !! a) ->
  is_Some (foldl (chart_step w types_list) chart l !! a).
Proof.
  revert chart. induction l as [|t l IH]; intros chart H; cbn; [exact H|].
  apply IH, chart_step_keeps_key, H.
Qed.

Lemma fold_attacking_key (l : list TypeRef) (chart : Chart) (t : TypeRef)
    (tdata : TypeData) :
  t ∈ l -> upstream_type w (t_url t) = Some tdata ->
  is_Some (foldl (chart_step w types_list) chart l !! td_name tdata).
Proof.
  revert chart. induction l as [|x l IH]; intros chart Hin E.
  - inversion Hin.
  - cbn. apply elem_of_cons in Hin. destruct Hin as [-> | Hin].
    + apply fold_keeps_key. rewrite (chart_step_loaded _ _ _ _ _ E).
      rewrite lookup_insert_eq. eexists; reflexivity.
    + apply IH; assumption.
Qed.

Lemma fold_key_origin (l : list TypeRef) (chart : Chart) (a : string) :
  is_Some (foldl (chart_step w types_list) chart l !! a) ->
  is_Some (chart !! a)
  \/ exists t tdata, t ∈ l /\ upstream_type w (t_url t) = Some tdata
                      /\ td_name tdata = a.
Proof.
  revert chart. induction l as [|t l IH]; intros chart H; cbn in H;
    [left; exact H|].
  destruct (IH _ H) as [Hs | (t' & td & Hin & Hl & Hn)].
  - destruct (upstream_type w (t_url t)) as [td|] eqn:E.
    + rewrite (chart_step_loaded _ _ _ _ _ E) in Hs.
      destruct (decide (td_name td = a)) as [Ha | Hne].
      * right. exists t, td. split; [apply elem_of_cons; left; reflexivity|].
        split; assumption.
      * rewrite lookup_insert_ne in Hs by exact Hne. left. exact Hs.
    + unfold chart_step in Hs. rewrite E in Hs. left. exact Hs.
  - right. exists t', td. split; [apply elem_of_cons; right; exact Hin|].
    split; assumption.
Qed.

Lemma fold_neutral (l : list TypeRef) (chart : Chart) (a d : string) :
  d ∈ map t_name types_list -> unrelated w l a d ->
  (forall row, chart !! a = Some row -> row !! d = Some 1%Q) ->
  forall row, foldl (chart_step w types_list) chart l !! a = Some row ->
              row !! d = Some 1%Q.
Proof.
  intros Hd. revert chart. induction l as [|t l IH]; intros chart Hun H;
    cbn; [exact H|].
  apply IH.
  - intros t' td' Hin. apply Hun. apply elem_of_cons. right. exact Hin.
  - destruct (upstream_type w (t_url t)) as [tdata|] eqn:E.
    + rewrite (chart_step_loaded _ _ _ _ _ E). intros row.
      destruct (decide (td_name tdata = a)) as [Ha | Hne].
      * rewrite Ha, lookup_insert_eq. intros [= <-].
        destruct (Hun t tdata) as (H2 & Hh & H0);
          [apply elem_of_cons; left; reflexivity | exact E | exact Ha |].
        apply built_row_neutral; assumption.
      * rewrite lookup_insert_ne by exact Hne. apply H.
    + unfold chart_step. rewrite E. exact H.
Qed.
End chart_fold.

(** C8, as the spec states it, fails: the record of the listed type
    "poison" does not load, and the chart has no attacking key for it. *)
Lemma chart_misses_unloaded_type :
  exists chart,
    build_type_chart Fixture.world None = Some chart
    /\ upstream_types Fixture.world = Some Fixture.types
    /\ "poison"%string ∈ map t_name Fixture.types
    /\ chart !! "poison"%string = None.
Proof.
  eexists. split; [reflexivity|]. split; [reflexivity|].
  split; [|vm_compute; reflexivity].
  cbn. do 3 (apply elem_of_cons; right). apply elem_of_cons. left. reflexivity.
Qed.

(** C8 (amended): in a chart that [build_type_chart] builds, every listed
    type whose record loads appears as an attacking key under the name of
    that record, and every attacking key is the name of such a record; in
    every row every listed type name is a defending key; every stored
    value is 0.0, 0.5, 1.0 or 2.0; a listed defending type that no loaded
    record of the attacking name relates to maps to 1.0; and
    [type_multiplier] reads a pair absent from the chart as 1.0. *)
Theorem build_type_chart_invariant (w : World) (types_list : list TypeRef)
    (chart : Chart) :
  upstream_types w = Some types_list ->
  build_type_chart w None = Some chart ->
  (forall t tdata,
      t ∈ types_list -> upstream_type w (t_url t) = Some tdata ->
      is_Some (chart !! td_name tdata))
  /\ (forall a,
        is_Some (chart !! a) ->
        exists t tdata,
          t ∈ types_list /\ upstream_type w (t_url t) = Some tdata
          /\ td_name tdata = a)
  /\ (forall a row d,
        chart !! a = Some row -> d ∈ map t_name types_list ->
        is_Some (row !! d))
  /\ (forall a row d v,
        chart !! a = Some row -> row !! d = Some v ->
        v = 0%Q \/ v = (1 # 2)%Q \/ v = 1%Q \/ v = 2%Q)
  /\ (forall a row d,
        chart !! a = Some row -> d ∈ map t_name types_list ->
        unrelated w types_list a d ->
        row !! d = Some 1%Q)
  /\ (forall a d,
        (chart !! a = None
         \/ exists row, chart !! a = Some row /\ row !! d = None) ->
        type_multiplier chart a [d] = 1%Q).
Proof.
  intros Hl Hb. unfold build_type_chart in Hb. rewrite Hl in Hb.
  inversion Hb as [Hc]; clear Hb.
  split; [|split; [|split; [|split; [|split]]]].
  - intros t tdata Hin E. eapply fold_attacking_key; eassumption.
  - intros a Ha. destruct (fold_key_origin w types_list _ _ _ Ha)
      as [[row Hrow] | H]; [|exact H].
    rewrite lookup_empty in Hrow. discriminate Hrow.
  - intros a row d. apply fold_complete. intros a' row'.
    rewrite lookup_empty. discriminate.
  - intros a row d v Ha Hd.
    assert (Hv : chart_values (foldl (chart_step w types_list) ∅ types_list)).
    { apply fold_values. intros a' row'. rewrite lookup_empty. discriminate. }
    exact (Hv a row Ha d v Hd).
  - intros a row d Ha Hd Hun. eapply fold_neutral; try eassumption.
    intros row'. rewrite lookup_empty. discriminate.
  - intros a d H. unfold type_multiplier. cbn.
    destruct H as [-> | (row & -> & Hd)]; cbn; [|rewrite Hd]; reflexivity.
Qed.

(** ** The theorems at the fixture *)

Lemma simulate_battle_seeded_deterministic_witness :
  random_seed Fixture.zero_turns_request = Some 7
  /\ simulate_battle Fixture.world None Fixture.idle_rng
       Fixture.zero_turns_request
     = simulate_battle Fixture.world None Fixture.high_rng
         Fixture.zero_turns_request.
Proof.
  split; [reflexivity|].
  apply (simulate_battle_seeded_deterministic Fixture.world None
           Fixture.zero_turns_request 7).
  reflexivity.
Defined.

Lemma end_of_turn_ticks_witness :
  setup Fixture.world None Fixture.burn_request = Some Fixture.duel
  /\ let s3 := fst (turn_actions Fixture.duel (initial_state Fixture.duel)
                                 (seed Fixture.world 1)) in
     let s' := fst (turn_body Fixture.duel (initial_state Fixture.duel)
                              (seed Fixture.world 1)) in
     atk_curr s3 = 0
     /\ log s' = log s3
                 ++ eot_events "bulbasaur" (atk_status s3) (atk_hp Fixture.duel)
                 ++ eot_events "charmander" (def_status s3) (def_hp Fixture.duel).
Proof.
  split; [vm_compute; reflexivity|].
  split; [vm_compute; reflexivity|].
  apply (end_of_turn_ticks Fixture.world None Fixture.burn_request Fixture.duel
           (initial_state Fixture.duel) (seed Fixture.world 1)).
  vm_compute. reflexivity.
Defined.

Lemma select_move_fallback_witness :
  forallb (fun md => 0 <=? power_of md)
          (loaded_moves Fixture.world (firstn 40 (p_moves Fixture.charmander)))
  = true
  /\ spec_candidates Fixture.world Fixture.charmander
     = [Fixture.tackle; Fixture.ember]
  /\ exists best before after,
      select_move Fixture.world Fixture.charmander None = Some best
      /\ spec_candidates Fixture.world Fixture.charmander
         = before ++ best :: after
      /\ Forall (fun x => power_of x < power_of best) before
      /\ Forall (fun x => power_of x <= power_of best) after.
Proof.
  split; [reflexivity|]. split; [reflexivity|].
  apply (select_move_fallback Fixture.world Fixture.charmander None).
  - left. reflexivity.
  - reflexivity.
  - vm_compute. discriminate.
Defined.

Lemma hits_accuracy_check_witness :
  paralysis_skip (user_status Attacker (initial_state Fixture.duel))
                 Fixture.high_rng
  = (false, Fixture.high_rng)
  /\ hits (m_accuracy (move_of Fixture.duel Attacker)) Fixture.high_rng
     = (false, mkRng (tape Fixture.high_rng) 1)
  /\ exists s',
      act Fixture.duel Attacker (initial_state Fixture.duel) Fixture.high_rng
      = (Continue, s', mkRng (tape Fixture.high_rng) 1)
      /\ atk_curr s' = atk_curr (initial_state Fixture.duel)
      /\ def_curr s' = def_curr (initial_state Fixture.duel)
      /\ atk_status s' = atk_status (initial_state Fixture.duel)
      /\ def_status s' = def_status (initial_state Fixture.duel)
      /\ log s'
         = log (initial_state Fixture.duel)
           ++ [EvMissed (user_name Fixture.duel Attacker)
                        (m_name (move_of Fixture.duel Attacker))].
Proof.
  split; [reflexivity|]. split; [reflexivity|].
  apply (proj2 (proj2 hits_accuracy_check) Fixture.duel Attacker
           (initial_state Fixture.duel) Fixture.high_rng Fixture.high_rng).
  - reflexivity.
  - reflexivity.
Defined.

Lemma apply_status_chance_spec_witness :
  detect_status_from_move Fixture.scorch = Some BURN
  /\ m_effect_chance Fixture.scorch = Some 100
  /\ 0 < 100
  /\ fst (randint 1 100 Fixture.idle_rng) <= 100
  /\ fst (apply_status_chance Fixture.scorch (Some POISON) Fixture.idle_rng)
     = Some BURN.
Proof.
  split; [reflexivity|]. split; [reflexivity|]. split; [reflexivity|].
  split; [vm_compute; discriminate|].
  apply (proj1 (proj2 (proj2 (apply_status_chance_spec Fixture.scorch
                                (Some POISON) Fixture.idle_rng)
                             BURN eq_refl))
               100).
  - reflexivity.
  - reflexivity.
  - vm_compute. discriminate.
Defined.

Lemma build_type_chart_invariant_witness :
  upstream_types Fixture.world = Some Fixture.types
  /\ build_type_chart Fixture.world None = Some Fixture.chart
  /\ Fixture.fire_ref ∈ Fixture.types
  /\ upstream_type Fixture.world (t_url Fixture.fire_ref)
     = Some Fixture.fire_record
  /\ is_Some (Fixture.chart !! td_name Fixture.fire_record).
Proof.
  assert (Hin : Fixture.fire_ref ∈ Fixture.types).
  { apply elem_of_cons. right. apply elem_of_cons. left. reflexivity. }
  split; [reflexivity|]. split; [reflexivity|]. split; [exact Hin|].
  split; [reflexivity|].
  apply (proj1 (build_type_chart_invariant Fixture.world Fixture.types
                  Fixture.chart eq_refl eq_refl)
               Fixture.fire_ref Fixture.fire_record Hin eq_refl).
Defined.

Lemma hp_bounded_and_non_increasing_witness :
  setup Fixture.world None Fixture.burn_request = Some Fixture.duel
  /\ let q := run_loop (loop_fuel Fixture.duel) Fixture.duel
                       (initial_state Fixture.duel) (seed Fixture.world 1) in
     hp_bounded Fixture.duel (fst q) /\ hp_le (fst q) (fst q).
Proof.
  split; [vm_compute; reflexivity|]. cbv zeta.
  pose proof (hp_bounded_and_non_increasing Fixture.world None
                Fixture.burn_request Fixture.duel (seed Fixture.world 1)
                ltac:(vm_compute; reflexivity)) as [Hinv Hreach].
  apply Hinv; [apply Hreach | apply rtc_refl].
Defined.


(** * Further properties *)

(** ** Accuracy bounds *)

(** X2: a move whose accuracy is 100 or more hits for every generator
    state, and a move whose accuracy is 1 or less (0 and negative values
    included) hits exactly when the integer drawn is 1. *)
Theorem hits_accuracy_extremes (a : Z) (g : Rng) :
  (100 <= a -> fst (hits (Some a) g) = true)
  /\ (a <= 1 -> (fst (hits (Some a) g) = true <-> fst (randint 1 100 g) = 1)).
Proof.
  rewrite hits_some. cbn [fst]. pose proof (randint_1_100 g) as Hr. split.
  - intros Ha. apply Z.leb_le. lia.
  - intros Ha. rewrite Z.leb_le. lia.
Qed.

Lemma hits_accuracy_extremes_witness :
  100 <= 100
  /\ fst (hits (m_accuracy (struggle "fire")) Fixture.high_rng) = true.
Proof.
  split; [lia|].
  apply (proj1 (hits_accuracy_extremes 100 Fixture.high_rng)). lia.
Defined.

(** ** Actions, case by case *)

Lemma apply_status_chance_result (move : Move) (ts : Status) (g : Rng) :
  fst (apply_status_chance move ts g) = ts
  \/ fst (apply_status_chance move ts g) = detect_status_from_move move.
Proof.
  unfold apply_status_chance.
  destruct (detect_status_from_move move) as [st|]; [|left; reflexivity].
  destruct (0 <? _); [|left; reflexivity].
  destruct (randint 1 100 g) as [r g']. destruct (r <=? _); cbn; auto.
Qed.

(** What one action does to each side: the user's HP and status are kept;
    the target's status is kept or becomes the status the move carries; the
    target's HP is kept unless the move has positive power. *)
Lemma act_effect (c : Setup) (actor : Actor) (s : BState) (g : Rng)
    (fl : Flow) (s' : BState) (g' : Rng) :
  act c actor s g = (fl, s', g') ->
  hp_of actor s' = hp_of actor s
  /\ status_of actor s' = status_of actor s
  /\ (status_of (opponent actor) s' = status_of (opponent actor) s
      \/ (status_of (opponent actor) s' = inflicted_on c (opponent actor)
          /\ status_of (opponent actor) s' <> None))
  /\ (hp_of (opponent actor) s' = hp_of (opponent actor) s
      \/ 0 < py_or (m_power (move_of c actor)) 0).
Proof.
  intros H. apply act_inv in H. cbv zeta in H.
  destruct H as [(_ & _ & ->) | [(g1 & _ & _ & _ & ->) | H]].
  - destruct actor; cbn; auto.
  - destruct actor; cbn; auto.
  - destruct H as (g1 & g2 & s3 & g3 & _ & _ & _ & Hdmg & -> & _).
    pose proof (apply_status_chance_result (move_of c actor)
                  (target_status actor s) g3) as Hres.
    destruct (fst (apply_status_chance (move_of c actor)
                     (target_status actor s) g3)) as [st|] eqn:Hnew.
    2:{ cbn [after_status].
        destruct Hdmg as [(Hp & dmg & mult & _ & ->) | (Hp & _ & ->)];
          destruct actor; cbn; auto. }
    assert (Hts : target_status actor s3 = target_status actor s).
    { destruct Hdmg as [(_ & dmg & mult & _ & ->) | (_ & _ & ->)];
        destruct actor; reflexivity. }
    unfold after_status. rewrite Hts.
    destruct (Status_eqb (Some st) (target_status actor s)) eqn:Heq; cbn [negb].
    + destruct Hdmg as [(Hp & dmg & mult & _ & ->) | (Hp & _ & ->)];
        destruct actor; cbn; auto.
    + assert (Hne : Some st <> target_status actor s).
      { intros E. apply Status_eqb_eq in E. congruence. }
      destruct Hres as [Hres | Hres]; [congruence|].
      destruct Hdmg as [(Hp & dmg & mult & _ & ->) | (Hp & _ & ->)];
        destruct actor; cbn in *; repeat split; auto;
        right; split; congruence.
Qed.

Lemma eot_effect (c : Setup) (s : BState) :
  (forall side, status_of side (eot_attacker c s) = status_of side s)
  /\ (forall side, status_of side (eot_defender c s) = status_of side s)
  /\ def_curr (eot_attacker c s) = def_curr s
  /\ atk_curr (eot_defender c s) = atk_curr s
  /\ (atk_status s <> Some BURN -> atk_status s <> Some POISON ->
      atk_curr (eot_attacker c s) = atk_curr s)
  /\ (def_status s <> Some BURN -> def_status s <> Some POISON ->
      def_curr (eot_defender c s) = def_curr s).
Proof.
  unfold eot_attacker, eot_defender, apply_eot.
  split; [intros side; destruct side;
          destruct (atk_status s) as [[]|]; reflexivity|].
  split; [intros side; destruct side;
          destruct (def_status s) as [[]|]; reflexivity|].
  split; [destruct (atk_status s) as [[]|]; reflexivity|].
  split; [destruct (def_status s) as [[]|]; reflexivity|].
  split; intros Hb Hp.
  - destruct (atk_status s) as [[]|]; cbn; congruence.
  - destruct (def_status s) as [[]|]; cbn; congruence.
Qed.

(** ** Statuses through the battle *)

Lemma step_status (c : Setup) (p q : BState * Rng) (side : Actor) :
  step c p q ->
  status_of side (fst q) = status_of side (fst p)
  \/ (status_of side (fst q) = inflicted_on c side
      /\ status_of side (fst q) <> None).
Proof.
  intros [s g | actor s g fl s' g' Hact | s g | s g]; cbn [fst].
  - left. destruct side; reflexivity.
  - destruct (act_effect _ _ _ _ _ _ _ Hact) as (_ & Hu & Ht & _).
    destruct actor, side; cbn in *; auto.
  - left. apply eot_effect.
  - left. apply eot_effect.
Qed.

Lemma steps_status (c : Setup) (side : Actor) (x y : BState * Rng) :
  rtc (step c) x y ->
  (status_of side (fst x) = None
   \/ status_of side (fst x) = inflicted_on c side) ->
  (status_of side (fst y) = None
   \/ status_of side (fst y) = inflicted_on c side)
  /\ (status_of side (fst x) <> None ->
      status_of side (fst y) = status_of side (fst x)).
Proof.
  intros Hxy. induction Hxy as [x | x m y Hxm Hmy IH]; intros Hx; [auto|].
  destruct (step_status c x m side Hxm) as [Heq | (Heq & Hne)].
  - rewrite Heq in IH. destruct (IH Hx) as [Hy Hkeep].
    split; [exact Hy | exact Hkeep].
  - destruct (IH (or_intror Heq)) as [Hy Hkeep]. split; [exact Hy|].
    intros Hnn. rewrite (Hkeep Hne).
    destruct Hx as [Hx | Hx]; congruence.
Qed.

(** X3: a side starts with no status; at every point of the loop its
    status is none or the one status its opponent's move carries; once it
    has a status, that status is never cleared and never replaced. *)
Theorem status_never_cleared (c : Setup) (g : Rng) (p q : BState * Rng)
    (side : Actor) :
  rtc (step c) (initial_state c, g) p ->
  rtc (step c) p q ->
  (status_of side (fst p) = None
   \/ status_of side (fst p) = inflicted_on c side)
  /\ (status_of side (fst p) <> None ->
      status_of side (fst q) = status_of side (fst p)).
Proof.
  intros Hp Hq.
  assert (H0 : status_of side (fst (initial_state c, g)) = None)
    by (destruct side; reflexivity).
  destruct (steps_status c side _ _ Hp (or_introl H0)) as [Hpinv _].
  split; [exact Hpinv|]. apply (steps_status c side _ _ Hq Hpinv).
Qed.

Lemma status_never_cleared_witness :
  let p := turn_body Fixture.duel (initial_state Fixture.duel)
                     (seed Fixture.world 1) in
  status_of Attacker (fst p) = Some BURN
  /\ (status_of Attacker (fst p) = None
      \/ status_of Attacker (fst p) = inflicted_on Fixture.duel Attacker)
  /\ (status_of Attacker (fst p) <> None ->
      status_of Attacker (fst p) = status_of Attacker (fst p)).
Proof.
  cbv zeta. split; [vm_compute; reflexivity|].
  apply (status_never_cleared Fixture.duel (seed Fixture.world 1)).
  - apply turn_body_steps.
  - apply rtc_refl.
Defined.

(** ** Moves without power *)

Lemma step_powerless (c : Setup) (p q : BState * Rng) (side : Actor) :
  py_or (m_power (move_of c (opponent side))) 0 <= 0 ->
  status_of side (fst p) <> Some BURN ->
  status_of side (fst p) <> Some POISON ->
  step c p q -> hp_of side (fst q) = hp_of side (fst p).
Proof.
  intros Hpow Hb Hp Hstep. revert Hb Hp.
  destruct Hstep as [s g | actor s g fl s' g' Hact | s g | s g];
    cbn [fst]; intros Hb Hp.
  - destruct side; reflexivity.
  - destruct (act_effect _ _ _ _ _ _ _ Hact) as (Hu & _ & _ & Ht).
    destruct actor, side; cbn [hp_of opponent move_of] in *;
      try assumption; destruct Ht as [Ht | Ht]; try assumption; lia.
  - destruct (eot_effect c s) as (_ & _ & H1 & _ & H3 & _).
    destruct side; cbn [hp_of status_of] in *; auto.
  - destruct (eot_effect c s) as (_ & _ & _ & H2 & _ & H4).
    destruct side; cbn [hp_of status_of] in *; auto.
Qed.

(** X4: a side whose opponent's move has no positive power and carries
    neither burn nor poison keeps its full HP at every point of the loop:
    HP is lost only to a damaging hit or to a burn or poison tick. *)
Theorem powerless_opponent_keeps_hp (c : Setup) (g : Rng)
    (p : BState * Rng) (side : Actor) :
  py_or (m_power (move_of c (opponent side))) 0 <= 0 ->
  inflicted_on c side <> Some BURN ->
  inflicted_on c side <> Some POISON ->
  rtc (step c) (initial_state c, g) p ->
  hp_of side (fst p) = max_hp_of c side.
Proof.
  intros Hpow Hb Hpo Hp.
  assert (Hgen : forall x y, rtc (step c) x y ->
            (status_of side (fst x) = None
             \/ status_of side (fst x) = inflicted_on c side) ->
            hp_of side (fst y) = hp_of side (fst x)).
  { intros x y Hxy. induction Hxy as [x | x m y Hxm Hmy IH]; intros Hx;
      [reflexivity|].
    destruct (steps_status c side x m (rtc_once _ _ Hxm) Hx) as [Hm _].
    rewrite (IH Hm). apply (step_powerless c x m side Hpow); [| |exact Hxm];
      destruct Hx as [E | E]; rewrite E; congruence. }
  rewrite (Hgen _ _ Hp); [destruct side; reflexivity|].
  left. destruct side; reflexivity.
Qed.

Lemma powerless_opponent_keeps_hp_witness :
  let c := Cases.growl_duel in
  py_or (m_power (move_of c (opponent Attacker))) 0 <= 0
  /\ inflicted_on c Attacker <> Some BURN
  /\ inflicted_on c Attacker <> Some POISON
  /\ hp_of Attacker (final_state c (seed Fixture.world 5))
     = max_hp_of c Attacker.
Proof.
  cbv zeta. split; [vm_compute; discriminate|].
  split; [vm_compute; discriminate|]. split; [vm_compute; discriminate|].
  apply (powerless_opponent_keeps_hp Cases.growl_duel
           (seed Fixture.world 5)
           (run_loop (loop_fuel Cases.growl_duel) Cases.growl_duel
                     (initial_state Cases.growl_duel)
                     (seed Fixture.world 5)) Attacker).
  - vm_compute. discriminate.
  - vm_compute. discriminate.
  - vm_compute. discriminate.
  - apply run_loop_steps.
Defined.

(** ** The log and the turn counter *)

Lemma turn_headers_app (l1 l2 : list Event) :
  turn_headers (l1 ++ l2) = turn_headers l1 ++ turn_headers l2.
Proof. unfold turn_headers. apply omap_app. Qed.

Lemma status_events_headers (target : string) (old new : Status) :
  turn_headers (status_events target old new) = [].
Proof.
  unfold status_events. destruct new as [st|]; [|reflexivity].
  destruct (negb _); reflexivity.
Qed.

Lemma act_headers (c : Setup) (actor : Actor) (s : BState) (g : Rng)
    (fl : Flow) (s' : BState) (g' : Rng) :
  act c actor s g = (fl, s', g') ->
  turn_headers (log s') = turn_headers (log s).
Proof.
  intros H.
  destruct (act_outcome _ _ _ _ _ _ _ H) as (_ & _ & _ & evs & -> & Hc).
  rewrite turn_headers_app.
  assert (He : turn_headers evs = []); [|rewrite He; apply app_nil_r].
  destruct Hc as [(_ & [-> | ->] & _) | (_ & new & _ & Hhit)];
    [reflexivity | reflexivity |].
  destruct Hhit as [(dmg & mult & -> & _) | (-> & _)];
    cbn; apply status_events_headers.
Qed.

Lemma for_actors_headers (c : Setup) (actors : list Actor) (s : BState)
    (g : Rng) :
  turn_headers (log (fst (for_actors c actors s g))) = turn_headers (log s).
Proof.
  revert s g. induction actors as [|actor rest IH]; intros s g; cbn.
  - reflexivity.
  - destruct (fainted s); [reflexivity|].
    destruct (act c actor s g) as [[fl s'] g'] eqn:Hact.
    pose proof (act_headers _ _ _ _ _ _ _ Hact) as Hh.
    destruct fl; [|destruct (fainted s'); [exact Hh|]];
      rewrite IH; exact Hh.
Qed.

Lemma eot_headers (c : Setup) (s : BState) :
  turn_headers (log (eot_attacker c s)) = turn_headers (log s)
  /\ turn_headers (log (eot_defender c s)) = turn_headers (log s).
Proof.
  unfold eot_attacker, eot_defender, apply_eot.
  split; [destruct (atk_status s) as [[]|] | destruct (def_status s) as [[]|]];
    cbn; rewrite ?turn_headers_app; cbn; rewrite ?app_nil_r; reflexivity.
Qed.

Lemma turn_body_headers (c : Setup) (s : BState) (g : Rng) :
  turn_headers (log (fst (turn_body c s g)))
  = turn_headers (log s) ++ [turn s + 1].
Proof.
  unfold turn_body, turn_actions.
  match goal with |- context [for_actors ?c ?a ?s ?g] =>
    pose proof (for_actors_headers c a s g) as H;
    destruct (for_actors c a s g) as [s3 g3] end.
  cbn [fst] in *.
  rewrite (proj2 (eot_headers c _)), (proj1 (eot_headers c _)), H.
  cbn. rewrite turn_headers_app. reflexivity.
Qed.

Lemma run_loop_headers (fuel : nat) (c : Setup) (s : BState) (g : Rng) :
  turn_headers (log (fst (run_loop fuel c s g)))
  = turn_headers (log s)
    ++ seqZ (turn s + 1) (turn (fst (run_loop fuel c s g)) - turn s).
Proof.
  revert s g. induction fuel as [|n IH]; intros s g; cbn.
  - rewrite Z.sub_diag. cbn. rewrite app_nil_r. reflexivity.
  - destruct (loop_cond c s); cbn;
      [|rewrite Z.sub_diag; cbn; rewrite app_nil_r; reflexivity].
    pose proof (turn_body_turn c s g) as Ht.
    pose proof (turn_body_headers c s g) as Hh.
    destruct (turn_body c s g) as [s' g']. cbn [fst] in *.
    destruct (fainted s'); cbn [fst].
    + rewrite Hh, Ht. replace (turn s + 1 - turn s) with 1 by lia.
      reflexivity.
    + rewrite IH, Hh, <- app_assoc. f_equal.
      pose proof (run_loop_turn_bound n c s' g') as Hb.
      rewrite (seqZ_cons (turn s + 1)) by lia. cbn. f_equal.
      rewrite Ht. f_equal; lia.
Qed.

Lemma simulate_battle_unfold (w : World) (cached : option Chart) (g0 : Rng)
    (r : BattleRequest) (c : Setup) :
  setup w cached r = Some c ->
  simulate_battle w cached g0 r
  = Some (mkOutcome (decide_winner c (final_state c (battle_rng w g0 r)))
                    (turn (final_state c (battle_rng w g0 r)))
                    (log (final_state c (battle_rng w g0 r)))).
Proof.
  intros H. unfold simulate_battle, final_state, battle_rng. rewrite H.
  destruct (run_loop _ _ _ _). reflexivity.
Qed.

Lemma simulate_battle_setup (w : World) (cached : option Chart) (g0 : Rng)
    (r : BattleRequest) (o : BattleOutcome) :
  simulate_battle w cached g0 r = Some o ->
  exists c, setup w cached r = Some c.
Proof.
  unfold simulate_battle. destruct (setup w cached r) as [c|]; [|discriminate].
  intros _. exists c. reflexivity.
Qed.

(** X5: the header lines of the returned log are numbered 1, 2, ... up to
    the returned turn count, one per turn and in order. *)
Theorem log_headers_count_turns (w : World) (cached : option Chart)
    (g0 : Rng) (r : BattleRequest) (o : BattleOutcome) :
  simulate_battle w cached g0 r = Some o ->
  turn_headers (out_log o) = seqZ 1 (turns o).
Proof.
  intros H. destruct (simulate_battle_setup _ _ _ _ _ H) as [c Hc].
  rewrite (simulate_battle_unfold _ _ _ _ _ Hc) in H.
  inversion H; subst; clear H. cbn [out_log turns]. unfold final_state.
  rewrite run_loop_headers. cbn. rewrite Z.sub_0_r. reflexivity.
Qed.

Lemma log_headers_count_turns_witness :
  simulate_battle Fixture.world None Fixture.idle_rng Cases.growl_request
  = Some Cases.growl_outcome
  /\ turns Cases.growl_outcome = 5
  /\ turn_headers (out_log Cases.growl_outcome) = seqZ 1 5.
Proof.
  split; [vm_compute; reflexivity|]. split; [vm_compute; reflexivity|].
  apply (log_headers_count_turns Fixture.world None Fixture.idle_rng
           Cases.growl_request Cases.growl_outcome).
  vm_compute. reflexivity.
Defined.

(** ** The turn budget *)

Lemma run_loop_idle (fuel : nat) (c : Setup) (s : BState) (g : Rng) :
  loop_cond c s = false -> run_loop fuel c s g = (s, g).
Proof. intros H. destruct fuel; cbn; [|rewrite H]; reflexivity. Qed.

Lemma initial_draw (c : Setup) :
  1 <= atk_hp c -> 1 <= def_hp c -> decide_winner c (initial_state c) = None.
Proof.
  intros Ha Hd. unfold decide_winner, initial_state. cbn.
  destruct (0 <? atk_hp c) eqn:E1, (def_hp c <=? 0) eqn:E2,
    (0 <? def_hp c) eqn:E3, (atk_hp c <=? 0) eqn:E4; cbn; try reflexivity; lia.
Qed.

(** X6: the returned turn count lies between 0 and the limit the code
    reads, [max_turns or 200]: the supplied value when it is not 0, and 200
    when it is 0 or absent; when that limit is negative the loop is never
    entered and the outcome is a draw after 0 turns with an empty log. *)
Theorem turn_budget (w : World) (cached : option Chart) (g0 : Rng)
    (r : BattleRequest) (o : BattleOutcome) :
  simulate_battle w cached g0 r = Some o ->
  0 <= turns o <= Z.max 0 (py_or (max_turns r) 200)
  /\ (forall m, max_turns r = Some m -> m <> 0 -> turns o <= Z.max 0 m)
  /\ (max_turns r = None \/ max_turns r = Some 0 -> turns o <= 200)
  /\ (py_or (max_turns r) 200 <= 0 -> o = mkOutcome None 0 []).
Proof.
  intros H. pose proof (simulate_battle_turns_bound _ _ _ _ _ H) as Hb.
  split; [exact Hb|]. split; [|split].
  - intros m Hm Hne. rewrite Hm in Hb. unfold py_or in Hb.
    destruct (m =? 0) eqn:E; lia.
  - intros [Hm | Hm]; rewrite Hm in Hb; cbn in Hb; lia.
  - intros Hneg. destruct (simulate_battle_setup _ _ _ _ _ H) as [c Hc].
    destruct (setup_facts _ _ _ _ Hc) as (Hreq & Ha & Hd & _).
    rewrite (simulate_battle_unfold _ _ _ _ _ Hc) in H.
    unfold final_state in H. rewrite run_loop_idle in H.
    + cbn [fst] in H. rewrite (initial_draw c Ha Hd) in H.
      inversion H. reflexivity.
    + unfold loop_cond. rewrite Hreq. cbn [turn initial_state].
      destruct (0 <? py_or (max_turns r) 200) eqn:E; [lia | reflexivity].
Qed.

Lemma turn_budget_witness :
  simulate_battle Fixture.world None Fixture.idle_rng Cases.growl_request
  = Some Cases.growl_outcome
  /\ 0 <= turns Cases.growl_outcome
     <= Z.max 0 (py_or (max_turns Cases.growl_request) 200).
Proof.
  split; [vm_compute; reflexivity|].
  apply (turn_budget Fixture.world None Fixture.idle_rng
           Cases.growl_request Cases.growl_outcome).
  vm_compute. reflexivity.
Defined.

(** ** How a battle ends *)




(** ** The multiplier against several types *)

Lemma type_multiplier_fold (type_chart : Chart) (move_type : string)
    (acc : Q) (l : list string) :
  (foldl (fun mult t => mult * pair_multiplier type_chart move_type t) acc l
   == acc * type_multiplier type_chart move_type l)%Q.
Proof.
  unfold type_multiplier. fold (pair_multiplier type_chart move_type).
  revert acc. induction l as [|t l IH]; intros acc; cbn.
  - ring.
  - rewrite IH, (IH (1 * pair_multiplier type_chart move_type t)%Q). ring.
Qed.

(** X9: the multiplier against no type is 1; against a list of types it is
    the product of the multipliers against its parts, so against one more
    type it is multiplied by that type's entry; and it is 0 as soon as one
    of the defender's types has entry 0. *)
Theorem type_multiplier_product (type_chart : Chart) (move_type : string)
    (l1 l2 : list string) (t : string) :
  type_multiplier type_chart move_type [] = 1%Q
  /\ (type_multiplier type_chart move_type (l1 ++ l2)
      == type_multiplier type_chart move_type l1
         * type_multiplier type_chart move_type l2)%Q
  /\ (type_multiplier type_chart move_type (l1 ++ [t])
      == type_multiplier type_chart move_type l1
         * pair_multiplier type_chart move_type t)%Q
  /\ (pair_multiplier type_chart move_type t = 0%Q ->
      (type_multiplier type_chart move_type (l1 ++ t :: l2) == 0)%Q).
Proof.
  assert (Happ : forall a b,
            (type_multiplier type_chart move_type (a ++ b)
             == type_multiplier type_chart move_type a
                * type_multiplier type_chart move_type b)%Q).
  { intros a b. unfold type_multiplier at 1. rewrite foldl_app.
    fold (pair_multiplier type_chart move_type).
    fold (type_multiplier type_chart move_type a).
    apply (type_multiplier_fold type_chart move_type). }
  assert (Hone : (type_multiplier type_chart move_type [t]
                  == pair_multiplier type_chart move_type t)%Q).
  { unfold type_multiplier, pair_multiplier. cbn. ring. }
  split; [reflexivity|]. split; [apply Happ|]. split.
  - rewrite Happ, Hone. reflexivity.
  - intros Hz. rewrite (Happ l1 (t :: l2)).
    change (t :: l2) with ([t] ++ l2). rewrite (Happ [t] l2), Hone, Hz. ring.
Qed.

Lemma type_multiplier_product_witness :
  pair_multiplier Fixture.chart "normal" "ghost" = 0%Q
  /\ (type_multiplier Fixture.chart "normal"
        (["grass"%string] ++ "ghost"%string :: ["poison"%string]) == 0)%Q.
Proof.
  split; [vm_compute; reflexivity|].
  apply (proj2 (proj2 (proj2 (type_multiplier_product Fixture.chart "normal"
                                ["grass"%string] ["poison"%string]
                                "ghost")))).
  vm_compute. reflexivity.
Defined.

(** ** Chart entries against the upstream relations *)

Lemma built_row_relation (types_list : list TypeRef) (tdata : TypeData)
    (row0 : gmap string Q) (d : string) :
  d ∈ map t_name types_list ->
  built_row types_list tdata row0 !! d = Some (relation_value tdata d).
Proof.
  intros Hd. unfold built_row, relation_value. rewrite !lookup_set_all.
  rewrite (bool_decide_eq_true_2 (d ∈ map t_name types_list)) by exact Hd.
  repeat (destruct (bool_decide _)); reflexivity.
Qed.

Section chart_relation.
Variable w : World.
Variable types_list : list TypeRef.
Variable a : string.
Variable tdata : TypeData.

Lemma chart_step_matches (chart : Chart) (t : TypeRef) :
  only_record w a tdata [t] ->
  row_matches types_list a tdata chart
  \/ (upstream_type w (t_url t) = Some tdata /\ td_name tdata = a) ->
  row_matches types_list a tdata (chart_step w types_list chart t).
Proof.
  intros Honly H.
  destruct (upstream_type w (t_url t)) as [td|] eqn:E.
  - rewrite (chart_step_loaded _ _ _ _ _ E).
    destruct (decide (td_name td = a)) as [Ha | Hne].
    + assert (td = tdata) as ->.
      { eapply Honly; [apply list_elem_of_singleton; reflexivity | exact E
                      | exact Ha]. }
      rewrite Ha. eexists. split; [apply lookup_insert_eq|].
      intros d Hd. apply built_row_relation. exact Hd.
    + destruct H as [(row & Hrow & Hv) | (Hl & Hn)].
      * exists row. split; [|exact Hv].
        rewrite lookup_insert_ne by exact Hne. exact Hrow.
      * congruence.
  - unfold chart_step. rewrite E.
    destruct H as [H | (Hl & _)]; [exact H | discriminate].
Qed.

Lemma fold_matches (l : list TypeRef) (chart : Chart) :
  only_record w a tdata l ->
  row_matches types_list a tdata chart
  \/ (exists t, t ∈ l /\ upstream_type w (t_url t) = Some tdata
                /\ td_name tdata = a) ->
  row_matches types_list a tdata (foldl (chart_step w types_list) chart l).
Proof.
  revert chart. induction l as [|t l IH]; intros chart Honly H; cbn.
  - destruct H as [H | (t & Hin & _)]; [exact H | inversion Hin].
  - apply IH.
    + intros t' td Hin. apply Honly. apply elem_of_cons. right. exact Hin.
    + assert (Ht : only_record w a tdata [t]).
      { intros t' td Hin. apply Honly.
        apply list_elem_of_singleton in Hin. subst t'.
        apply elem_of_cons. left. reflexivity. }
      destruct H as [H | (t' & Hin & Hl & Hn)].
      * left. apply chart_step_matches; [exact Ht | left; exact H].
      * apply elem_of_cons in Hin. destruct Hin as [-> | Hin].
        -- left. apply chart_step_matches; [exact Ht | right; auto].
        -- right. exists t'. repeat split; assumption.
Qed.
End chart_relation.

(** X10: when a listed type's record loads and no other loaded record of
    the listing carries its name, the chart row of that name gives every
    listed defending type the value of the record's relations: 0.0 if it is
    under [no_damage_to], else 0.5 if under [half_damage_to], else 2.0 if
    under [double_damage_to], else 1.0. *)
Theorem chart_row_matches_relations (w : World) (types_list : list TypeRef)
    (chart : Chart) (t : TypeRef) (tdata : TypeData) (d : string) :
  upstream_types w = Some types_list ->
  build_type_chart w None = Some chart ->
  t ∈ types_list ->
  upstream_type w (t_url t) = Some tdata ->
  only_record w (td_name tdata) tdata types_list ->
  d ∈ map t_name types_list ->
  pair_multiplier chart (td_name tdata) d = relation_value tdata d
  /\ type_multiplier chart (td_name tdata) [d]
     = (1 * relation_value tdata d)%Q.
Proof.
  intros Hl Hb Hin Hload Honly Hd.
  unfold build_type_chart in Hb. rewrite Hl in Hb.
  inversion Hb as [Hc]; clear Hb.
  destruct (fold_matches w types_list (td_name tdata) tdata types_list ∅
              Honly) as (row & Hrow & Hv).
  { right. exists t. repeat split; assumption. }
  assert (Hp : pair_multiplier
                 (foldl (chart_step w types_list) ∅ types_list)
                 (td_name tdata) d = relation_value tdata d).
  { unfold pair_multiplier. rewrite Hrow. cbn. rewrite (Hv d Hd). reflexivity. }
  split; [exact Hp|].
  unfold type_multiplier. cbn. fold (pair_multiplier
    (foldl (chart_step w types_list) ∅ types_list) (td_name tdata) d).
  rewrite Hp. reflexivity.
Qed.

Lemma chart_row_matches_relations_witness :
  upstream_types Fixture.world = Some Fixture.types
  /\ build_type_chart Fixture.world None = Some Fixture.chart
  /\ upstream_type Fixture.world (t_url Fixture.fire_ref)
     = Some Fixture.fire_record
  /\ pair_multiplier Fixture.chart "fire" "grass" = 2%Q
  /\ pair_multiplier Fixture.chart "fire" "fire" = (1 # 2)%Q
  /\ pair_multiplier Fixture.chart "fire" "poison" = 1%Q.
Proof.
  assert (Hin : Fixture.fire_ref ∈ Fixture.types).
  { apply elem_of_cons. right. apply elem_of_cons. left. reflexivity. }
  assert (Honly : only_record Fixture.world (td_name Fixture.fire_record)
                    Fixture.fire_record Fixture.types).
  { intros t td Ht.
    repeat (apply elem_of_cons in Ht; destruct Ht as [-> | Ht]);
      [| | | | inversion Ht]; cbn; intros [= <-]; cbn;
      first [discriminate | reflexivity]. }
  assert (Hd : forall d, d ∈ map t_name Fixture.types ->
            pair_multiplier Fixture.chart "fire" d
            = relation_value Fixture.fire_record d).
  { intros d Hd.
    apply (chart_row_matches_relations Fixture.world Fixture.types
             Fixture.chart Fixture.fire_ref Fixture.fire_record d
             eq_refl eq_refl Hin eq_refl Honly Hd). }
  split; [reflexivity|]. split; [reflexivity|]. split; [reflexivity|].
  split; [|split]; apply Hd; cbn.
  - do 2 (apply elem_of_cons; right). apply elem_of_cons. left. reflexivity.
  - apply elem_of_cons. right. apply elem_of_cons. left. reflexivity.
  - do 3 (apply elem_of_cons; right). apply elem_of_cons. left. reflexivity.
Defined.

(** ** Move selection with and without an explicit list *)

Lemma first_loaded_app (w : World) (before after : list string)
    (name : string) (mv : Move) :
  Forall (fun n => get_move_data w n = None) before ->
  get_move_data w name = Some mv ->
  first_loaded w (before ++ name :: after) = Some mv.
Proof.
  intros Hb Hn. induction Hb as [|n l Hn0 _ IH]; cbn.
  - rewrite Hn. reflexivity.
  - rewrite Hn0. exact IH.
Qed.

Lemma first_loaded_none (w : World) (names : list string) :
  Forall (fun n => get_move_data w n = None) names <->
  first_loaded w names = None.
Proof.
  induction names as [|n l IH]; cbn.
  - split; [reflexivity | constructor].
  - destruct (get_move_data w n) eqn:E.
    + split; [intros H; inversion H; congruence | discriminate].
    + rewrite <- IH. split; [intros H; inversion H; assumption|].
      intros H. constructor; assumption.
Qed.

(** X11: with an explicit list, the names that fail to load are skipped and
    the first one that loads is the result, whatever its power or damage
    class; when none loads, the result is that of a request without
    list. *)
Theorem select_move_explicit (w : World) (poke : Pokemon)
    (before after names : list string) (name : string) (mv : Move) :
  (Forall (fun n => get_move_data w n = None) before ->
   get_move_data w name = Some mv ->
   select_move w poke (Some (before ++ name :: after)) = Some mv)
  /\ (Forall (fun n => get_move_data w n = None) names ->
      select_move w poke (Some names) = select_move w poke None).
Proof.
  split.
  - intros Hb Hn. unfold select_move.
    rewrite (first_loaded_app w before after name mv Hb Hn).
    destruct before; reflexivity.
  - intros Hn. apply first_loaded_none in Hn. unfold select_move.
    destruct names as [|n l]; [reflexivity|]. rewrite Hn. reflexivity.
Qed.

Lemma select_move_explicit_witness :
  Forall (fun n => get_move_data Fixture.world n = None) ["surf"%string]
  /\ get_move_data Fixture.world "Growl" = Some Fixture.growl
  /\ select_move Fixture.world Fixture.charmander
       (Some (["surf"%string] ++ "Growl"%string :: ["tackle"%string]))
     = Some Fixture.growl.
Proof.
  assert (H : Forall (fun n => get_move_data Fixture.world n = None)
                     ["surf"%string]).
  { constructor; [reflexivity | constructor]. }
  split; [exact H|]. split; [reflexivity|].
  apply (proj1 (select_move_explicit Fixture.world Fixture.charmander
                  ["surf"%string] ["tackle"%string] [] "Growl"
                  Fixture.growl) H).
  reflexivity.
Defined.

Lemma select_move_none (w : World) (poke : Pokemon)
    (provided : option (list string)) :
  select_move w poke provided = None <->
  first_loaded w (default [] provided) = None
  /\ scan_candidates w (firstn 40 (p_moves poke)) = []
  /\ p_types poke = [].
Proof.
  assert (Hfall : forall fb : option Move,
            match provided with
            | Some ((_ :: _) as names) =>
                match first_loaded w names with
                | Some mv => Some mv
                | None => fb
                end
            | _ => fb
            end = None <->
            first_loaded w (default [] provided) = None /\ fb = None).
  { intros fb. destruct provided as [[|n l]|]; cbn [from_option id];
      [cbn; intuition | | cbn; intuition].
    destruct (first_loaded w (n :: l)) as [mv|]; [|intuition].
    split; [intros H; discriminate H | intros [H _]; discriminate H]. }
  unfold select_move. rewrite Hfall.
  destruct (sort_desc (scan_candidates w (firstn 40 (p_moves poke))))
    as [|best rest] eqn:Hs.
  - apply sort_desc_nil in Hs. rewrite Hs.
    destruct (p_types poke) as [|ty tys].
    + intuition.
    + split; [intros [_ H]; discriminate H
             | intros (_ & _ & H); discriminate H].
  - assert (Hne : scan_candidates w (firstn 40 (p_moves poke)) <> []).
    { intros E. rewrite E in Hs. discriminate. }
    split; [intros [_ H]; discriminate H
           | intros (_ & H & _); contradiction].
Qed.

(** X12: [select_move] raises exactly when no explicit name loads, the scan
    of the first 40 known moves keeps no candidate, and the creature has
    no type for the synthetic struggle. *)
Theorem select_move_raises_iff (w : World) (poke : Pokemon)
    (provided : option (list string)) :
  select_move w poke provided = None <->
  first_loaded w (default [] provided) = None
  /\ scan_candidates w (firstn 40 (p_moves poke)) = []
  /\ p_types poke = [].
Proof. apply select_move_none. Qed.

Lemma select_move_raises_iff_witness :
  first_loaded Fixture.world (default [] (Some ["surf"%string])) = None
  /\ scan_candidates Fixture.world (firstn 40 (p_moves Cases.typeless)) = []
  /\ p_types Cases.typeless = []
  /\ select_move Fixture.world Cases.typeless (Some ["surf"%string]) = None.
Proof.
  split; [reflexivity|]. split; [reflexivity|]. split; [reflexivity|].
  apply (proj2 (select_move_raises_iff Fixture.world Cases.typeless
                  (Some ["surf"%string]))).
  repeat split.
Defined.

Lemma scan_candidates_kept (w : World) (mvs : list MoveRef) (md : Move) :
  In md (scan_candidates w mvs) ->
  truthy (m_power md) = true /\ damaging_class (m_damage_class md) = true
  /\ exists mv, In mv mvs /\ get_move_data w (mr_name mv) = Some md.
Proof.
  induction mvs as [|mv rest IH]; cbn; [intros []|].
  destruct (get_move_data w (mr_name mv)) as [md'|] eqn:E.
  - destruct (truthy (m_power md') && damaging_class (m_damage_class md'))
      eqn:Hk.
    + intros [<- | Hin].
      * apply andb_true_iff in Hk. destruct Hk as [Ht Hc].
        repeat split; try assumption. exists mv. auto.
      * destruct (IH Hin) as (Ht & Hc & mv' & Hin' & Hl).
        repeat split; try assumption. exists mv'. auto.
    + intros Hin. destruct (IH Hin) as (Ht & Hc & mv' & Hin' & Hl).
      repeat split; try assumption. exists mv'. auto.
  - intros Hin. destruct (IH Hin) as (Ht & Hc & mv' & Hin' & Hl).
    repeat split; try assumption. exists mv'. auto.
Qed.

(** X13: without an explicit list the selected move always has a non-zero
    power and damage class physical or special, and it is either the
    synthetic struggle or the loaded record of one of the creature's first
    40 known moves: a status move or a move without power is never picked
    by the fallback. *)
Theorem select_move_fallback_is_damaging (w : World) (poke : Pokemon)
    (provided : option (list string)) (mv : Move) :
  provided = None \/ provided = Some [] ->
  select_move w poke provided = Some mv ->
  py_or (m_power mv) 0 <> 0
  /\ damaging_class (m_damage_class mv) = true
  /\ ((exists ty, mv = struggle ty /\ hd_error (p_types poke) = Some ty)
      \/ exists ref, In ref (firstn 40 (p_moves poke))
                     /\ get_move_data w (mr_name ref) = Some mv).
Proof.
  intros Hprov Hsel.
  assert (Hsel' : match sort_desc (scan_candidates w
                                     (firstn 40 (p_moves poke))) with
                  | best :: _ => Some best
                  | [] => match p_types poke with
                          | ty :: _ => Some (struggle ty)
                          | [] => None
                          end
                  end = Some mv).
  { rewrite <- Hsel. unfold select_move.
    destruct Hprov as [-> | ->]; reflexivity. }
  clear Hsel.
  destruct (sort_desc _) as [|best rest] eqn:Hs.
  - destruct (p_types poke) as [|ty tys]; [discriminate|].
    inversion Hsel'; subst. cbn. repeat split; [discriminate|].
    left. exists ty. auto.
  - inversion Hsel'; subst best.
    destruct (sort_desc_head _ _ _ Hs) as (l1 & l2 & Hl & _).
    assert (Hin : In mv (scan_candidates w (firstn 40 (p_moves poke)))).
    { rewrite Hl. apply in_or_app. right. left. reflexivity. }
    destruct (scan_candidates_kept _ _ _ Hin) as (Ht & Hc & ref & Hr & Hg).
    split; [|split; [exact Hc | right; exists ref; auto]].
    unfold truthy in Ht. unfold py_or.
    destruct (m_power mv) as [p|]; [|discriminate].
    destruct (p =? 0) eqn:E; [discriminate | lia].
Qed.

Lemma select_move_fallback_is_damaging_witness :
  select_move Fixture.world Fixture.bulbasaur None = Some Fixture.tackle
  /\ py_or (m_power Fixture.tackle) 0 <> 0
  /\ damaging_class (m_damage_class Fixture.tackle) = true.
Proof.
  split; [reflexivity|].
  pose proof (select_move_fallback_is_damaging Fixture.world
                Fixture.bulbasaur None Fixture.tackle
                (or_introl eq_refl) eq_refl) as (H1 & H2 & _).
  split; assumption.
Defined.

(** ** The status classifier *)

Lemma prefix_nil (s : string) : String.prefix EmptyString s = true.
Proof. destruct s; reflexivity. Qed.

Lemma append_cons (c : ascii) (a b : string) :
  String.append (String c a) b = String c (String.append a b).
Proof. reflexivity. Qed.

Lemma append_nil (b : string) : String.append EmptyString b = b.
Proof. reflexivity. Qed.

Lemma prefix_app_l (n a b : string) :
  String.prefix n a = true -> String.prefix n (String.append a b) = true.
Proof.
  revert a. induction n as [|c n IH]; intros a H; [apply prefix_nil|].
  destruct a as [|c' a]; [discriminate H|]. rewrite append_cons.
  cbn in *. destruct (Ascii.ascii_dec c c'); [apply IH; exact H | discriminate].
Qed.

Lemma prefix_shorter (n m t : string) :
  String.prefix (String.append n m) t = true -> String.prefix n t = true.
Proof.
  revert t. induction n as [|c n IH]; intros t H; [apply prefix_nil|].
  rewrite append_cons in H. destruct t as [|c' t]; [discriminate H|].
  cbn in *. destruct (Ascii.ascii_dec c c'); [apply IH; exact H | discriminate].
Qed.

Lemma contains_nil (n : string) :
  contains n EmptyString = String.prefix n EmptyString.
Proof. cbn [contains]. apply orb_false_r. Qed.

Lemma contains_cons (n : string) (c : ascii) (t : string) :
  contains n (String c t) = String.prefix n (String c t) || contains n t.
Proof. reflexivity. Qed.

Lemma contains_shorter (n m t : string) :
  contains (String.append n m) t = true -> contains n t = true.
Proof.
  induction t as [|c t IH]; intros H.
  - rewrite contains_nil in *. eapply prefix_shorter. exact H.
  - rewrite contains_cons in *.
    apply orb_true_iff in H. apply orb_true_iff.
    destruct H as [H | H]; [left; eapply prefix_shorter; exact H|].
    right. apply IH. exact H.
Qed.

Lemma contains_app_l (n a b : string) :
  contains n a = true -> contains n (String.append a b) = true.
Proof.
  induction a as [|c a IH]; intros H.
  - rewrite contains_nil in H. destruct n; [|discriminate H].
    rewrite append_nil. destruct b; reflexivity.
  - rewrite append_cons. rewrite contains_cons in *.
    apply orb_true_iff in H. apply orb_true_iff.
    destruct H as [H | H].
    + left. rewrite <- append_cons. apply (prefix_app_l n (String c a) b H).
    + right. apply IH. exact H.
Qed.

Lemma contains_app_r (n a b : string) :
  contains n b = true -> contains n (String.append a b) = true.
Proof.
  intros H. induction a as [|c a IH]; [exact H|].
  rewrite append_cons, contains_cons. apply orb_true_iff. right. exact IH.
Qed.

Lemma lower_app (a b : string) :
  lower (String.append a b) = String.append (lower a) (lower b).
Proof.
  induction a as [|c a IH]; [reflexivity|].
  rewrite append_cons. cbn [lower]. rewrite IH. reflexivity.
Qed.

Lemma contains_join (n sep : string) (l : list string) (x : string) :
  In x l -> contains n (lower x) = true ->
  contains n (lower (join sep l)) = true.
Proof.
  intros Hin Hx. induction l as [|y l IH]; [destruct Hin|].
  destruct l as [|z l].
  - destruct Hin as [-> | []]. exact Hx.
  - cbn [join]. rewrite lower_app. destruct Hin as [-> | Hin].
    + apply contains_app_l. exact Hx.
    + apply contains_app_r. rewrite lower_app. apply contains_app_r.
      apply IH. exact Hin.
Qed.

Lemma entry_mentions_text (kw : string) (move : Move) (e : EffectEntry) :
  In e (m_effect_entries move) -> entry_mentions kw e = true ->
  contains kw (status_text move) = true.
Proof.
  intros Hin He. unfold status_text.
  apply (contains_join kw " " _ (entry_text e)); [apply in_map; exact Hin|].
  unfold entry_text. rewrite lower_app. unfold entry_mentions in He.
  apply orb_true_iff in He. destruct He as [He | He].
  - apply contains_app_l. exact He.
  - apply contains_app_r. rewrite lower_app. apply contains_app_r. exact He.
Qed.

(** X14: the classifier looks at the lower-cased effect texts only; the
    second paralysis test is subsumed by the first, so the result is
    paralysis if the text contains "paraly", else burn if it contains
    "burn", else poison if it contains "poison", else none. A move without
    effect entries carries no status, and an entry that mentions "paraly"
    in any letter case makes the move a paralysis move even if burn or
    poison are mentioned as well. *)
Theorem detect_status_priority (move : Move) :
  detect_status_from_move move
  = (if contains "paraly" (status_text move) then Some PARALYSIS
     else if contains "burn" (status_text move) then Some BURN
     else if contains "poison" (status_text move) then Some POISON
     else None)
  /\ (m_effect_entries move = [] -> detect_status_from_move move = None)
  /\ (forall e, In e (m_effect_entries move) ->
        entry_mentions "paraly" e = true ->
        detect_status_from_move move = Some PARALYSIS)
  /\ (forall e, In e (m_effect_entries move) ->
        entry_mentions "burn" e = true ->
        contains "paraly" (status_text move) = false ->
        detect_status_from_move move = Some BURN).
Proof.
  assert (Hd : detect_status_from_move move
               = (if contains "paraly" (status_text move) then Some PARALYSIS
                  else if contains "burn" (status_text move) then Some BURN
                  else if contains "poison" (status_text move)
                       then Some POISON else None)).
  { unfold detect_status_from_move. fold (status_text move).
    destruct (contains "paraly" (status_text move)) eqn:E1; [reflexivity|].
    destruct (contains "paralys" (status_text move)) eqn:E2; [|reflexivity].
    apply (contains_shorter "paraly" "s") in E2. congruence. }
  split; [exact Hd|]. split; [|split].
  - intros He. unfold detect_status_from_move. rewrite He. reflexivity.
  - intros e Hin He. rewrite Hd, (entry_mentions_text _ _ _ Hin He).
    reflexivity.
  - intros e Hin He Hno. rewrite Hd, Hno, (entry_mentions_text _ _ _ Hin He).
    reflexivity.
Qed.

Lemma detect_status_priority_witness :
  In (mkEffect (Some "May BURN or PARALYZE the target."%string) None)
     [mkEffect None (Some "Hits hard."%string);
      mkEffect (Some "May BURN or PARALYZE the target."%string) None]
  /\ entry_mentions "paraly"
       (mkEffect (Some "May BURN or PARALYZE the target."%string) None)
     = true
  /\ detect_status_from_move
       (mkMove "tri-attack" (Some 80) (Some 100) "normal"
               (Some "special"%string)
               [mkEffect None (Some "Hits hard."%string);
                mkEffect (Some "May BURN or PARALYZE the target."%string) None]
               (Some 20))
     = Some PARALYSIS.
Proof.
  split; [right; left; reflexivity|]. split; [reflexivity|].
  apply (proj1 (proj2 (proj2 (detect_status_priority
           (mkMove "tri-attack" (Some 80) (Some 100) "normal"
                   (Some "special"%string)
                   [mkEffect None (Some "Hits hard."%string);
                    mkEffect (Some "May BURN or PARALYZE the target."%string)
                             None]
                   (Some 20)))))
           (mkEffect (Some "May BURN or PARALYZE the target."%string) None)).
  - right. left. reflexivity.
  - reflexivity.
Defined.

(** ** When a request fails *)

(** X15: [simulate_battle] raises whenever one of the two creatures fails
    to load, or no chart is cached and the type listing fails to load, or
    [select_move] raises for one of the two sides. *)
Theorem simulate_battle_fails_when (w : World) (cached : option Chart)
    (g0 : Rng) (r : BattleRequest) :
  get_pokemon_data w (attacker r) = None
  \/ get_pokemon_data w (defender r) = None
  \/ (cached = None /\ upstream_types w = None)
  \/ (exists a, get_pokemon_data w (attacker r) = Some a
                /\ select_move w a (attacker_moves r) = None)
  \/ (exists d, get_pokemon_data w (defender r) = Some d
                /\ select_move w d (defender_moves r) = None) ->
  simulate_battle w cached g0 r = None.
Proof.
  unfold simulate_battle, setup, build_type_chart.
  destruct (get_pokemon_data w (attacker r)) as [a|]; [|reflexivity].
  destruct (get_pokemon_data w (defender r)) as [d|]; [|reflexivity].
  intros [H | [H | [[-> H] | H]]]; try discriminate H.
  - rewrite H. reflexivity.
  - destruct (match cached with Some chart => Some chart | None => _ end)
      as [chart|]; [|reflexivity].
    destruct H as [(a' & Ha & Hs) | (d' & Hd & Hs)].
    + inversion Ha; subst a'. rewrite Hs. reflexivity.
    + inversion Hd; subst d'.
      destruct (select_move w a (attacker_moves r)); [|reflexivity].
      rewrite Hs. reflexivity.
Qed.

Lemma simulate_battle_fails_when_witness :
  get_pokemon_data Fixture.world
    (attacker (Fixture.request "Mew" "Bulbasaur" None None None None))
  = None
  /\ simulate_battle Fixture.world None Fixture.idle_rng
       (Fixture.request "Mew" "Bulbasaur" None None None None)
     = None.
Proof.
  split; [reflexivity|].
  apply (simulate_battle_fails_when Fixture.world None Fixture.idle_rng
           (Fixture.request "Mew" "Bulbasaur" None None None None)).
  left. reflexivity.
Defined.

(** ** The evolution chain *)

Lemma flatten_length (chain : Chain) :
  length (flatten chain) = chain_size chain.
Proof.
  revert chain. fix IH 1. intros [sp children]. cbn. f_equal.
  induction children as [|child rest IHr]; [reflexivity|].
  rewrite length_app, IH, IHr. reflexivity.
Qed.

Lemma flatten_linear (first : string) (later : list string) :
  flatten (linear_chain first later) = first :: later.
Proof.
  revert first. induction later as [|next rest IH]; intros first; cbn.
  - reflexivity.
  - rewrite IH, app_nil_r. reflexivity.
Qed.

(** X17: the flattened chain starts with the species of the root and lists
    every species of the tree once per node, parents before their
    children: its length is the number of nodes, a chain in which every
    species has a single successor flattens to the species in evolution
    order, and the children's lists follow in the order of [evolves_to]. *)
Theorem flatten_preorder (sp : string) (children : list Chain)
    (first : string) (later : list string) :
  hd_error (flatten (ChainNode sp children)) = Some sp
  /\ length (flatten (ChainNode sp children))
     = chain_size (ChainNode sp children)
  /\ flatten (ChainNode sp children)
     = sp :: concat (map flatten children)
  /\ flatten (linear_chain first later) = first :: later
  /\ evolution_chain (Some (linear_chain first later)) = first :: later
  /\ evolution_chain None = [].
Proof.
  split; [reflexivity|]. split; [apply flatten_length|].
  split; [|split; [apply flatten_linear|split; [apply flatten_linear|]]];
    [|reflexivity].
  cbn. f_equal. induction children as [|child rest IH]; [reflexivity|].
  cbn. rewrite IH. reflexivity.
Qed.
